(** * Data profiling script: holiday calendar and IQR fence summary

    A shallow embedding of [data_profiling.py].  The following parts of
    the script are modelled:

    - the holiday functions [nth_weekday_of_month], [last_weekday_of_month]
      and [build_us_holidays_for_year], over a model of Python's
      [datetime.date] (proleptic Gregorian calendar, years 1..9999,
      construction raising [ValueError] outside the calendar and
      [OverflowError] for an argument that does not fit a C [int]);
    - the engineered columns [is_holiday] / [is_weekend] and the numeric
      summary with IQR fences, over a model of a pandas column whose
      cells are either a number or missing, in exact arithmetic;
    - the arithmetic that the numeric summary itself performs (fences,
      outlier mask, outlier percentage, rounding), a second time over
      binary64 cells, where infinities and the rounding of each operation
      are visible (module [Binary64]).

    Python exceptions are explicit: every fallible operation returns an
    [outcome]. *)

From Stdlib Require Import ZArith QArith Qround Qminmax Qfield Qabs Qpower.
From Stdlib Require Import Lia Lqa List Bool.
From Stdlib Require Floats.
From stdpp Require Import base decidable countable gmap sets list strings.
From stdpp Require Import sorting.

Local Open Scope Z_scope.

(** ** Outcomes of Python computations *)

Inductive exn : Type :=
| ValueError
| OverflowError.

(** [Return a]: the code returns [a]; [Raise e]: it raises exception [e];
    [Timeout]: the iteration budget of the model ran out (never the case for
    the budgets used below, see the [_terminates] lemmas). *)
Inductive outcome (A : Type) : Type :=
| Return (a : A)
| Raise (e : exn)
| Timeout.

Arguments Return {A} a.
Arguments Raise {A} e.
Arguments Timeout {A}.

#[global] Instance outcome_ret : MRet outcome := fun _ a => Return a.
#[global] Instance outcome_bind : MBind outcome := fun _ _ f m =>
  match m with
  | Return a => f a
  | Raise e => Raise e
  | Timeout => Timeout
  end.

(** ** Python's [datetime.date] *)

Module Date.

Definition MINYEAR : Z := 1.
Definition MAXYEAR : Z := 9999.

Record date : Type := mk { year : Z; month : Z; day : Z }.

#[global] Instance date_eq_dec : EqDecision date.
Proof. solve_decision. Defined.

Definition to_triple (d : date) : Z * Z * Z := (year d, month d, day d).
Definition of_triple (t : Z * Z * Z) : date := mk t.1.1 t.1.2 t.2.

Lemma of_to_triple (d : date) : of_triple (to_triple d) = d.
Proof. by destruct d. Qed.

#[global] Instance date_countable : Countable date :=
  inj_countable' to_triple of_triple of_to_triple.

(** [_is_leap] *)
Definition is_leap (y : Z) : bool :=
  (y mod 4 =? 0) && (negb (y mod 100 =? 0) || (y mod 400 =? 0)).

(** [_days_in_month]; months outside 1..12 never reach it. *)
Definition days_in_month (y m : Z) : Z :=
  if (m =? 2) && is_leap y then 29
  else match m with
       | 1 => 31 | 2 => 28 | 3 => 31 | 4 => 30 | 5 => 31 | 6 => 30
       | 7 => 31 | 8 => 31 | 9 => 30 | 10 => 31 | 11 => 30 | 12 => 31
       | _ => 0
       end.

(** [_days_before_year]: days before January 1st of year [y]. *)
Definition days_before_year (y : Z) : Z :=
  let y1 := y - 1 in
  y1 * 365 + y1 / 4 - y1 / 100 + y1 / 400.

(** [_days_before_month]: days in year [y] before the first day of [m]. *)
Definition days_before_month (y m : Z) : Z :=
  match m with
  | 1 => 0 | 2 => 31 | 3 => 59 | 4 => 90 | 5 => 120 | 6 => 151
  | 7 => 181 | 8 => 212 | 9 => 243 | 10 => 273 | 11 => 304 | 12 => 334
  | _ => 0
  end + (if (2 <? m) && is_leap y then 1 else 0).

(** [date.toordinal]: January 1st of year 1 is day 1. *)
Definition toordinal (d : date) : Z :=
  days_before_year (year d) + days_before_month (year d) (month d) + day d.

(** [date.weekday]: Monday is 0, Sunday is 6. *)
Definition weekday (d : date) : Z := (toordinal d + 6) mod 7.

(** The field check of the constructor. *)
Definition valid_fields (y m d : Z) : bool :=
  (MINYEAR <=? y) && (y <=? MAXYEAR) && (1 <=? m) && (m <=? 12)
  && (1 <=? d) && (d <=? days_in_month y m).

Definition valid (d : date) : Prop :=
  valid_fields (year d) (month d) (day d) = true.

(** The constructor receives its arguments as C [int]s. *)
Definition C_INT_MIN : Z := - 2 ^ 31.
Definition C_INT_MAX : Z := 2 ^ 31 - 1.

Definition fits_c_int (z : Z) : bool := (C_INT_MIN <=? z) && (z <=? C_INT_MAX).

(** [date(y, m, d)]: raises [OverflowError] when an argument does not fit a
    C [int], and [ValueError] when a field is out of range. *)
Definition new (y m d : Z) : outcome date :=
  if fits_c_int y && fits_c_int m && fits_c_int d then
    if valid_fields y m d then Return (mk y m d) else Raise ValueError
  else Raise OverflowError.

(** [d - timedelta(days=1)]: the date of ordinal [toordinal d - 1];
    [OverflowError] before January 1st of year 1. *)
Definition sub_one_day (d : date) : outcome date :=
  if 1 <? day d then Return (mk (year d) (month d) (day d - 1))
  else if 1 <? month d then
    Return (mk (year d) (month d - 1) (days_in_month (year d) (month d - 1)))
  else if MINYEAR <? year d then Return (mk (year d - 1) 12 31)
  else Raise OverflowError.

End Date.

Import Date.

(** ** The holiday functions *)

(** [while d.weekday() != weekday: d = date(d.year, d.month, d.day + 1)] *)
Fixpoint seek_forward (fuel : nat) (weekday : Z) (d : date) : outcome date :=
  if negb (Date.weekday d =? weekday) then
    match fuel with
    | O => Timeout
    | S fuel' =>
        d' ← Date.new (year d) (month d) (day d + 1);
        seek_forward fuel' weekday d'
    end
  else Return d.

(** [for _ in range(k): d = date(d.year, d.month, d.day + 7)] *)
Fixpoint add_weeks (k : nat) (d : date) : outcome date :=
  match k with
  | O => Return d
  | S k' =>
      d' ← Date.new (year d) (month d) (day d + 7);
      add_weeks k' d'
  end.

(** No month has more than 31 days, so the first loop of
    [nth_weekday_of_month] runs its body at most 31 times before [date]
    raises. *)
Definition forward_budget : nat := 31.

Definition nth_weekday_of_month (y m weekday n : Z) : outcome date :=
  d ← Date.new y m 1;
  d ← seek_forward forward_budget weekday d;
  add_weeks (Z.to_nat (n - 1)) d.

(** [while last.weekday() != weekday: last = last - timedelta(days=1)] *)
Fixpoint seek_backward (fuel : nat) (weekday : Z) (last : date)
  : outcome date :=
  if negb (Date.weekday last =? weekday) then
    match fuel with
    | O => Timeout
    | S fuel' =>
        last' ← sub_one_day last;
        seek_backward fuel' weekday last'
    end
  else Return last.

(** Each backward step lowers the ordinal by one and the ordinal of a date
    is at least 1, so the ordinal of the start bounds the iterations. *)
Definition backward_budget (last : date) : nat := Z.to_nat (toordinal last).

Definition last_weekday_of_month (y m weekday : Z) : outcome date :=
  last ← (if m =? 12 then Date.new y 12 31
          else first_next ← Date.new y (m + 1) 1;
               sub_one_day first_next);
  seek_backward (backward_budget last) weekday last.

(** [hol.add(x)] on a Python set. *)
Definition set_add (x : date) (hol : gset date) : gset date := {[x]} ∪ hol.

Definition build_us_holidays_for_year (y : Z) : outcome (gset date) :=
  let hol : gset date := ∅ in
  d ← Date.new y 1 1; let hol := set_add d hol in
  d ← Date.new y 7 4; let hol := set_add d hol in
  d ← Date.new y 11 11; let hol := set_add d hol in
  d ← Date.new y 12 25; let hol := set_add d hol in
  d ← nth_weekday_of_month y 1 0 3; let hol := set_add d hol in
  d ← nth_weekday_of_month y 2 0 3; let hol := set_add d hol in
  d ← last_weekday_of_month y 5 0; let hol := set_add d hol in
  d ← nth_weekday_of_month y 9 0 1; let hol := set_add d hol in
  d ← nth_weekday_of_month y 10 0 2; let hol := set_add d hol in
  d ← nth_weekday_of_month y 11 3 4; let hol := set_add d hol in
  Return hol.

(** ** Engineered calendar columns

    The date column after [pd.to_datetime(..., errors="coerce")]: a cell is a
    timestamp or missing ([NaT], here [None]).  Only the calendar date of a
    timestamp is used by the script, so a timestamp is modelled by its
    [date]. *)

Abbreviation date_column := (list (option date)) (only parsing).

(** [years]: the distinct years of the non-missing cells, in order of first
    appearance, then [sorted]. *)
Definition collect_years (col : date_column) : list Z :=
  foldl (fun years dval =>
           let y := year dval in
           if bool_decide (y ∈ years) then years else years ++ [y])
        [] (omap id col).

Definition sorted_years (col : date_column) : list Z :=
  merge_sort Z.le (collect_years col).

(** [for y in years: holiday_calendar[y] = build_us_holidays_for_year(y)] *)
Fixpoint build_calendar (years : list Z) (cal : gmap Z (gset date))
  : outcome (gmap Z (gset date)) :=
  match years with
  | [] => Return cal
  | y :: years' =>
      hol ← build_us_holidays_for_year y;
      build_calendar years' (<[y := hol]> cal)
  end.

Definition holiday_calendar (col : date_column)
  : outcome (gmap Z (gset date)) :=
  build_calendar (sorted_years col) ∅.

(** One iteration of the row loop: [None] is [np.nan]. *)
Definition is_holiday_val (cal : gmap Z (gset date)) (dval : option date)
  : option bool :=
  match dval with
  | None => None
  | Some the_date =>
      match cal !! year the_date with
      | Some hol => Some (bool_decide (the_date ∈ hol))
      | None => Some false
      end
  end.

Definition is_holiday_vals (col : date_column) : outcome (list (option bool)) :=
  cal ← holiday_calendar col;
  Return (is_holiday_val cal <$> col).

(** [df[date_col].dt.weekday]: a float column, [NaN] (here [None]) at a
    missing date. *)
Definition dt_weekday (col : date_column) : list (option Z) :=
  (fun dval : option date => weekday <$> dval) <$> col.

(** [series >= k]: a comparison with [NaN] is [False]. *)
Definition series_ge (ser : list (option Z)) (k : Z) : list bool :=
  (fun v : option Z => match v with Some w => k <=? w | None => false end)
    <$> ser.

Definition is_weekend (col : date_column) : list bool :=
  series_ge (dt_weekday col) 5.

(** ** Numeric columns

    A float64 cell is modelled as an exact rational or [NaN] (here [None]):
    arithmetic is exact, a missing value propagates through every operation
    and compares false with everything.  Infinities and binary rounding are
    outside this model. *)

Abbreviation float := (option Q) (only parsing).

Definition NaN : float := None.

Definition lift2 (op : Q -> Q -> Q) (a b : float) : float :=
  match a, b with
  | Some x, Some y => Some (op x y)
  | _, _ => None
  end.

Definition fadd : float -> float -> float := lift2 Qplus.
Definition fsub : float -> float -> float := lift2 Qminus.
Definition fmul : float -> float -> float := lift2 Qmult.

(** Division of numbers; a zero divisor leaves the model ([nan] or an
    infinity in numpy) and is reported as [NaN]. *)
Definition fdiv (a b : float) : float :=
  match a, b with
  | Some x, Some y => if Qeq_bool y 0 then None else Some (x / y)%Q
  | _, _ => None
  end.

Definition Qlt_bool (x y : Q) : bool :=
  match (x ?= y)%Q with Lt => true | _ => false end.

(** [a < b] on cells: [False] when either side is [NaN]. *)
Definition flt (a b : float) : bool :=
  match a, b with
  | Some x, Some y => Qlt_bool x y
  | _, _ => false
  end.

(** Python's [round(x, 2)] on the exact value: nearest multiple of 1/100,
    ties to the even one; [round(nan, 2)] is [nan].  The exact model rounds
    the exact value of its argument; the result of the script on a value
    that was itself rounded in binary64 is [Binary64.round2] below. *)
Definition round_half_even (x : Q) : Z :=
  let f := Qfloor x in
  match (x - inject_Z f ?= 1 # 2)%Q with
  | Lt => f
  | Gt => f + 1
  | Eq => if Z.even f then f else f + 1
  end.

Definition round2 (x : float) : float :=
  (fun v => inject_Z (round_half_even (v * 100)) / 100)%Q <$> x.

#[global] Instance Qle_decision (x y : Q) : Decision (x <= y)%Q.
Proof.
  destruct (Qlt_le_dec y x); [right; by apply Qlt_not_le | by left].
Defined.

#[global] Instance Qlt_decision (x y : Q) : Decision (x < y)%Q.
Proof.
  destruct (Qlt_le_dec x y); [by left | right; by apply Qle_not_lt].
Defined.

(** [s.dropna()] *)
Definition dropna (col : list float) : list Q := omap id col.

Definition sort_values (s : list Q) : list Q := merge_sort Qle s.

(** Linear interpolation in the sorted values [xs] at the virtual index
    [h]: between the value at the floor of [h] and its successor (the last
    value has no successor and stands for it). *)
Definition interpolate (xs : list Q) (x0 : Q) (h : Q) : Q :=
  let n := Z.of_nat (length xs) in
  let i := Qfloor h in
  let g := (h - inject_Z i)%Q in
  let lo := nth (Z.to_nat i) xs x0 in
  let hi := nth (Z.to_nat (Z.min (i + 1) (n - 1))) xs x0 in
  (lo + (hi - lo) * g)%Q.

(** [s.quantile(q)] with the default linear interpolation: the value at
    the virtual index [(n - 1) * q] of the sorted values; [NaN] on an
    empty series. *)
Definition quantile (s : list Q) (q : Q) : float :=
  match sort_values s with
  | [] => NaN
  | (x0 :: _) as xs =>
      let n := Z.of_nat (length xs) in
      Some (interpolate xs x0 (inject_Z (n - 1) * q))
  end.

(** [s.median()]: the middle value, or the mean of the two middle values. *)
Definition series_median (s : list Q) : float :=
  match sort_values s with
  | [] => NaN
  | (x0 :: _) as xs =>
      let n := length xs in
      if Nat.even n
      then Some ((nth (n / 2 - 1) xs x0 + nth (n / 2) xs x0) / 2)%Q
      else Some (nth (n / 2) xs x0)
  end.

Definition Qsum (s : list Q) : Q := foldr Qplus 0%Q s.

(** [s.mean()] *)
Definition series_mean (s : list Q) : float :=
  match s with
  | [] => NaN
  | _ => Some (Qsum s / inject_Z (Z.of_nat (length s)))%Q
  end.

(** Sample variance (denominator [n - 1]); [NaN] when [n - 1 <= 0]. *)
Definition series_var (s : list Q) : float :=
  match series_mean s with
  | None => NaN
  | Some mu =>
      if (length s <=? 1)%nat then NaN
      else Some (Qsum ((fun x => (x - mu) * (x - mu))%Q <$> s)
                 / inject_Z (Z.of_nat (length s) - 1))%Q
  end.

(** [round(sqrt(v), 2)] on the exact value, through the integer square
    root: [h] is the floor of [100 * sqrt v]. *)
Definition round2_sqrt (v : Q) : Q :=
  let h := Z.sqrt (Qfloor (v * 10000)) in
  let up := match (v * 40000 ?= inject_Z ((2 * h + 1) * (2 * h + 1)))%Q with
            | Lt => h
            | Gt => h + 1
            | Eq => if Z.even h then h else h + 1
            end in
  (inject_Z up / 100)%Q.

(** [round(float(s.std()), 2)]: the rounded square root of the sample
    variance. *)
Definition series_std_round2 (s : list Q) : float :=
  round2_sqrt <$> series_var s.

(** [s.min()], [s.max()] *)
Definition series_min (s : list Q) : float :=
  match s with
  | [] => NaN
  | x :: s' => Some (foldl Qmin x s')
  end.

Definition series_max (s : list Q) : float :=
  match s with
  | [] => NaN
  | x :: s' => Some (foldl Qmax x s')
  end.

(** One record of [rows]. *)
Module Row.
Record t : Type := mk {
  variable : string;
  count : Z;
  mean : float;
  std : float;
  min : float;
  q1 : float;
  median : float;
  q3 : float;
  max : float;
  iqr : float;
  lower_fence : float;
  upper_fence : float;
  outlier_pct : float
}.
End Row.

(** [(df[c] < lower) | (df[c] > upper)] *)
Definition outlier_mask (col : list float) (lower upper : float) : list bool :=
  zip_with orb ((fun v : float => flt v lower) <$> col)
               ((fun v : float => flt upper v) <$> col).

(** [mask.sum()] *)
Definition mask_sum (mask : list bool) : Z :=
  foldr (fun b acc => Z.b2z b + acc) 0 mask.

(** The body of the loop [for c in num_cols] that appends to [rows];
    [col] is [df[c]] and [len(df)] is its length. *)
Definition fence_row (c : string) (col : list float) : Row.t :=
  let s := dropna col in
  if (length s =? 0)%nat then
    Row.mk c 0 NaN NaN NaN NaN NaN NaN NaN NaN NaN NaN NaN
  else
    let q1 := quantile s (25 # 100) in
    let q3 := quantile s (75 # 100) in
    let iqr := fsub q3 q1 in
    let lower := fsub q1 (fmul (Some (15 # 10)) iqr) in
    let upper := fadd q3 (fmul (Some (15 # 10)) iqr) in
    let outlier_mask := outlier_mask col lower upper in
    let outlier_pct :=
      fmul (fdiv (Some (inject_Z (mask_sum outlier_mask)))
                 (Some (inject_Z (Z.of_nat (length col)))))
           (Some 100%Q) in
    Row.mk c
           (Z.of_nat (length s))
           (round2 (series_mean s))
           (series_std_round2 s)
           (series_min s)
           q1
           (series_median s)
           q3
           (series_max s)
           iqr
           lower
           upper
           (round2 outlier_pct).

(** [rows]: one record per numeric column. *)
Definition rows (num_cols : list (string * list float)) : list Row.t :=
  (fun '(c, col) => fence_row c col) <$> num_cols.

(** ** Missingness summary *)

(** [df.isna()] on a cell. *)
Definition isna {A : Type} (v : option A) : bool :=
  match v with
  | None => true
  | Some _ => false
  end.

(** [df.isna().sum()] for one column: the number of missing cells. *)
Definition missing_count {A : Type} (col : list (option A)) : Z :=
  mask_sum (isna <$> col).

(** [(missing_count / len(df) * 100).round(2)] for one column. *)
Definition missing_pct {A : Type} (col : list (option A)) : float :=
  round2 (fmul (fdiv (Some (inject_Z (missing_count col)))
                     (Some (inject_Z (Z.of_nat (length col)))))
               (Some 100%Q)).

(** ** Column names

    Header names are modelled as strings of ASCII characters (codes below
    128), on which Python's [str.strip], [str.lower] and [str.replace] act
    as below; other characters are outside this model. *)

Definition is_ascii7 (a : Ascii.ascii) : bool :=
  (Ascii.nat_of_ascii a <? 128)%nat.

Fixpoint ascii_name (s : string) : bool :=
  match s with
  | String.EmptyString => true
  | String.String a s' => is_ascii7 a && ascii_name s'
  end.

(** The ASCII characters that [str.isspace] accepts: tab, line feed,
    vertical tab, form feed, carriage return, the four separators 28..31
    and the space. *)
Definition is_space (a : Ascii.ascii) : bool :=
  let n := Ascii.nat_of_ascii a in
  ((9 <=? n) && (n <=? 13) || (28 <=? n) && (n <=? 32))%nat.

Fixpoint lstrip (s : string) : string :=
  match s with
  | String.EmptyString => String.EmptyString
  | String.String a s' => if is_space a then lstrip s' else s
  end.

Fixpoint rstrip (s : string) : string :=
  match s with
  | String.EmptyString => String.EmptyString
  | String.String a s' =>
      match rstrip s' with
      | String.EmptyString =>
          if is_space a then String.EmptyString
          else String.String a String.EmptyString
      | r => String.String a r
      end
  end.

(** [c.strip()] *)
Definition strip (s : string) : string := rstrip (lstrip s).

Fixpoint map_chars (f : Ascii.ascii -> Ascii.ascii) (s : string) : string :=
  match s with
  | String.EmptyString => String.EmptyString
  | String.String a s' => String.String (f a) (map_chars f s')
  end.

Definition lower_char (a : Ascii.ascii) : Ascii.ascii :=
  let n := Ascii.nat_of_ascii a in
  if ((65 <=? n) && (n <=? 90))%nat then Ascii.ascii_of_nat (n + 32) else a.

(** [c.lower()] *)
Definition lower (s : string) : string := map_chars lower_char s.

Definition space : Ascii.ascii := Ascii.ascii_of_nat 32.
Definition underscore : Ascii.ascii := Ascii.ascii_of_nat 95.

Definition replace_space_char (a : Ascii.ascii) : Ascii.ascii :=
  if Ascii.eqb a space then underscore else a.

(** [c.replace(" ", "_")] *)
Definition replace_spaces (s : string) : string :=
  map_chars replace_space_char s.

(** [c.strip().lower().replace(" ", "_")] *)
Definition normalize_name (c : string) : string :=
  replace_spaces (lower (strip c)).

(** [df.columns = cols] after the renaming loop. *)
Definition normalize_columns (columns : list string) : list string :=
  normalize_name <$> columns.

(** [sub in s] *)
Fixpoint contains (sub s : string) : bool :=
  String.prefix sub s
  || match s with
     | String.EmptyString => false
     | String.String _ s' => contains sub s'
     end.

(** The loop that looks for the date column: the first name that contains
    ["date"]. *)
Fixpoint find_date_col (columns : list string) : option string :=
  match columns with
  | [] => None
  | c :: columns' =>
      if contains "date" c then Some c else find_date_col columns'
  end.

(** [date_col] after the fallback [df.columns[0]]; [None] stands for the
    [IndexError] of that lookup in a table without columns. *)
Definition date_col (columns : list string) : option string :=
  match find_date_col columns with
  | Some c => Some c
  | None => head columns
  end.

(** The loop that fills [char_cols] and [num_cols]; [numeric c] stands for
    [pd.api.types.is_numeric_dtype(df[c])].  The result is
    [(char_cols, num_cols)]. *)
Definition split_columns (numeric : string -> bool) (columns : list string)
  : list string * list string :=
  foldl (fun '(char_cols, num_cols) c =>
           if numeric c then (char_cols, num_cols ++ [c])
           else (char_cols ++ [c], num_cols))
        ([], []) columns.

(** [char_cols_full]: the character columns without repetition, then the
    engineered columns that are not there yet and are columns of [df]. *)
Definition char_cols_full (char_cols df_columns : list string) : list string :=
  let full :=
    foldl (fun full c => if bool_decide (c ∈ full) then full else full ++ [c])
          [] char_cols in
  foldl (fun full c =>
           if negb (bool_decide (c ∈ full)) && bool_decide (c ∈ df_columns)
           then full ++ [c] else full)
        full ["day_of_week"; "is_holiday"; "is_weekend"]%string.

(** ** The numeric summary over binary64 cells

    The loop body once more, with the cells and the arithmetic of the
    script in IEEE 754 binary64: a cell is a float, [nan] is the missing
    value and the infinities are ordinary values that [dropna] keeps.  The
    statistics that pandas computes on the non-missing values are not part
    of the script; they are an argument [stats] of the model, which maps
    the series [s] to the answers of [s.mean()], [s.std()], [s.min()],
    [s.quantile(0.25)], [s.median()], [s.quantile(0.75)] and [s.max()].
    The cells of an integer column are taken after their conversion to
    float64, which both [astype(float)] and the comparison with a float
    fence perform. *)

Module Binary64.
Import PrimFloat SpecFloat FloatOps.

(** The absolute value of the finite cell of mantissa [m] and exponent
    [e]. *)
Definition magnitude (m : positive) (e : Z) : Q :=
  (inject_Z (Zpos m) * 2 ^ e)%Q.

(** The float nearest to [k / 100], with sign [s]. *)
Definition nearest_hundredth (s : bool) (k : Z) : PrimFloat.float :=
  SF2Prim
    match k with
    | Zpos p => SFdiv prec emax (S754_finite s p 0) (S754_finite false 100 0)
    | _ => S754_zero s
    end.

(** Python's [round(x, 2)] on a float: the exact value of [x] is rounded
    to the nearest multiple of 1/100, ties to the even one, and the result
    is the float nearest to that decimal; zeros, infinities and [nan] are
    returned as they are. *)
Definition round2 (x : PrimFloat.float) : PrimFloat.float :=
  match Prim2SF x with
  | S754_finite s m e =>
      nearest_hundredth s (round_half_even (magnitude m e * 100))
  | _ => x
  end.

(** [s.dropna()] *)
Definition dropna (col : list PrimFloat.float) : list PrimFloat.float :=
  List.filter (fun v => negb (is_nan v)) col.

(** The answers of pandas on a series. *)
Record describe : Type := {
  d_mean : PrimFloat.float;
  d_std : PrimFloat.float;
  d_min : PrimFloat.float;
  d_q1 : PrimFloat.float;
  d_median : PrimFloat.float;
  d_q3 : PrimFloat.float;
  d_max : PrimFloat.float
}.

Module Row.
Record t : Type := mk {
  variable : string;
  count : Z;
  mean : PrimFloat.float;
  std : PrimFloat.float;
  min : PrimFloat.float;
  q1 : PrimFloat.float;
  median : PrimFloat.float;
  q3 : PrimFloat.float;
  max : PrimFloat.float;
  iqr : PrimFloat.float;
  lower_fence : PrimFloat.float;
  upper_fence : PrimFloat.float;
  outlier_pct : PrimFloat.float
}.
End Row.

(** [(df[c] < lower) | (df[c] > upper)] *)
Definition outlier_mask (col : list PrimFloat.float)
    (lower upper : PrimFloat.float) : list bool :=
  zip_with orb ((fun v => v <? lower)%float <$> col)
               ((fun v => upper <? v)%float <$> col).

(** The conversion of an integer count to float64 by the true division
    [outlier_mask.sum() / len(df)]. *)
Definition of_count (k : Z) : PrimFloat.float :=
  of_uint63 (Uint63Axioms.of_Z k).

Definition fence_row (stats : list PrimFloat.float -> describe)
    (c : string) (col : list PrimFloat.float) : Row.t :=
  let s := dropna col in
  if (length s =? 0)%nat then
    Row.mk c 0 nan nan nan nan nan nan nan nan nan nan nan
  else
    let q1 := d_q1 (stats s) in
    let q3 := d_q3 (stats s) in
    let iqr := (q3 - q1)%float in
    let lower := (q1 - 1.5 * iqr)%float in
    let upper := (q3 + 1.5 * iqr)%float in
    let outlier_mask := outlier_mask col lower upper in
    let outlier_pct :=
      (of_count (mask_sum outlier_mask)
       / of_count (Z.of_nat (length col)) * 100)%float in
    Row.mk c
           (Z.of_nat (length s))
           (round2 (d_mean (stats s)))
           (round2 (d_std (stats s)))
           (d_min (stats s))
           q1
           (d_median (stats s))
           q3
           (d_max (stats s))
           iqr
           lower
           upper
           (round2 outlier_pct).

End Binary64.

(** ** Reference notions for the statements

    The days of a month and, among them, the days that fall on a given
    weekday, in increasing order: the [n]th occurrence of weekday [w] in a
    month is the [n]th element of [occurrences]. *)

Definition month_days (y m : Z) : list Z := seqZ 1 (days_in_month y m).

Definition occurrences (y m w : Z) : list Z :=
  filter (fun d => weekday (Date.mk y m d) = w) (month_days y m).

(** The rows of a column that hold a number strictly below [lower] or
    strictly above [upper]; a missing row is never one of them. *)
Definition outside (lower upper : Q) (v : float) : Prop :=
  match v with
  | Some x => (x < lower)%Q \/ (upper < x)%Q
  | None => False
  end.

#[global] Instance outside_decision (lower upper : Q) (v : float) :
  Decision (outside lower upper v).
Proof. destruct v; simpl; apply _. Defined.

Definition outlier_rows (lower upper : Q) (col : list float) : list float :=
  filter (outside lower upper) col.

(** The rows of a binary64 column that compare strictly below [lower]
    or strictly above [upper]. *)
Definition outside64 (lower upper v : PrimFloat.float) : bool :=
  PrimFloat.ltb v lower || PrimFloat.ltb upper v.

(** A library that reports [a] and [b] for the two quartiles, no standard
    deviation, and [x] for every other statistic. *)
Definition answering (a b x : PrimFloat.float)
  : list PrimFloat.float -> Binary64.describe :=
  fun _ =>
    {| Binary64.d_mean := x; Binary64.d_std := PrimFloat.nan;
       Binary64.d_min := x; Binary64.d_q1 := a; Binary64.d_median := x;
       Binary64.d_q3 := b; Binary64.d_max := x |}.

(** What a quantile of a series whose values are all [+inf] can be. *)
Definition infinite_quartiles : list (PrimFloat.float * PrimFloat.float) :=
  [(PrimFloat.infinity, PrimFloat.infinity);
   (PrimFloat.infinity, PrimFloat.nan);
   (PrimFloat.nan, PrimFloat.infinity);
   (PrimFloat.nan, PrimFloat.nan)].



(** The ten holiday rules, as a property of a date: a fixed date, or a
    given weekday in a given week of a given month. *)
Definition us_holiday_rule (d : date) : Prop :=
  (month d = 1 /\ day d = 1) \/
  (month d = 7 /\ day d = 4) \/
  (month d = 11 /\ day d = 11) \/
  (month d = 12 /\ day d = 25) \/
  (month d = 1 /\ weekday d = 0 /\ 15 <= day d <= 21) \/
  (month d = 2 /\ weekday d = 0 /\ 15 <= day d <= 21) \/
  (month d = 5 /\ weekday d = 0 /\ 25 <= day d <= 31) \/
  (month d = 9 /\ weekday d = 0 /\ 1 <= day d <= 7) \/
  (month d = 10 /\ weekday d = 0 /\ 8 <= day d <= 14) \/
  (month d = 11 /\ weekday d = 3 /\ 22 <= day d <= 28).

#[global] Instance us_holiday_rule_decision (d : date) :
  Decision (us_holiday_rule d).
Proof. unfold us_holiday_rule. apply _. Defined.

(** The first day of the month that falls on weekday [w]. *)
Definition first_occurrence (y m w : Z) : Z :=
  1 + (w - weekday (Date.mk y m 1)) mod 7.

(** The days [d] of a month of [dim] days with [(c + d) mod 7 = w], by
    search and in closed form; [c] stands for the weekday offset of the
    month. *)
Definition occ_search (c dim w : Z) : list Z :=
  filter (fun d => (c + d) mod 7 = w) (seqZ 1 dim).

Definition occ_closed (c dim w : Z) : list Z :=
  let f := 1 + (w - (c + 1) mod 7) mod 7 in
  (fun k => f + 7 * k) <$> seqZ 0 ((dim - f) / 7 + 1).

(** * Properties *)

(** ** The calendar *)

Lemma c_int_bounds : C_INT_MIN = - 2147483648 /\ C_INT_MAX = 2147483647.
Proof. done. Qed.

Ltac c_int := pose proof c_int_bounds as [? ?]; lia.

(** Linear arithmetic with division and remainder by constants. *)
Ltac mod7 := Z.div_mod_to_equations; lia.
Ltac divlia := zify; Z.div_mod_to_equations; lia.

Lemma bind_Return {A B : Type} (a : A) (f : A -> outcome B) :
  (Return a ≫= f) = f a.
Proof. done. Qed.

Lemma bind_Raise {A B : Type} (e : exn) (f : A -> outcome B) :
  (Raise e ≫= f) = Raise e.
Proof. done. Qed.

Section calendar.

Lemma valid_fields_spec (y m d : Z) :
  valid_fields y m d = true <->
  1 <= y <= 9999 /\ 1 <= m <= 12 /\ 1 <= d <= days_in_month y m.
Proof.
  unfold valid_fields, MINYEAR, MAXYEAR.
  rewrite !andb_true_iff, !Z.leb_le. lia.
Qed.

Lemma days_in_month_bounds (y m : Z) :
  1 <= m <= 12 -> 28 <= days_in_month y m <= 31.
Proof.
  intros Hm. unfold days_in_month.
  assert (m = 1 \/ m = 2 \/ m = 3 \/ m = 4 \/ m = 5 \/ m = 6 \/ m = 7 \/
          m = 8 \/ m = 9 \/ m = 10 \/ m = 11 \/ m = 12) as Hcases by lia.
  destruct (is_leap y);
    repeat (destruct Hcases as [-> | Hcases]; [simpl; lia |]);
    subst; simpl; lia.
Qed.

Lemma fits_c_int_spec (z : Z) :
  fits_c_int z = true <-> C_INT_MIN <= z <= C_INT_MAX.
Proof. unfold fits_c_int. rewrite andb_true_iff, !Z.leb_le. lia. Qed.

Lemma fits_c_int_small (z : Z) :
  C_INT_MIN <= z <= C_INT_MAX -> fits_c_int z = true.
Proof. apply fits_c_int_spec. Qed.

Lemma fits_c_int_large (z : Z) :
  ~ C_INT_MIN <= z <= C_INT_MAX -> fits_c_int z = false.
Proof. intros H. apply not_true_is_false. by rewrite fits_c_int_spec. Qed.

(** The fields of a date fit a C [int]. *)
Lemma valid_fields_fit (y m d : Z) :
  valid_fields y m d = true ->
  fits_c_int y && fits_c_int m && fits_c_int d = true.
Proof.
  rewrite valid_fields_spec. intros (Hy & Hm & Hd).
  pose proof (days_in_month_bounds y m Hm).
  destruct c_int_bounds as [Hmin Hmax].
  rewrite !fits_c_int_small; [done | lia ..].
Qed.

Lemma new_valid (y m d : Z) :
  valid_fields y m d = true -> Date.new y m d = Return (Date.mk y m d).
Proof.
  intros H. unfold Date.new. by rewrite (valid_fields_fit _ _ _ H), H.
Qed.

Lemma new_invalid (y m d : Z) :
  C_INT_MIN <= y <= C_INT_MAX ->
  C_INT_MIN <= m <= C_INT_MAX ->
  C_INT_MIN <= d <= C_INT_MAX ->
  valid_fields y m d = false -> Date.new y m d = Raise ValueError.
Proof.
  intros Hy Hm Hd H. unfold Date.new.
  by rewrite !fits_c_int_small, H.
Qed.

Lemma new_overflow (y m d : Z) :
  ~ (C_INT_MIN <= y <= C_INT_MAX) \/
  ~ (C_INT_MIN <= m <= C_INT_MAX) \/
  ~ (C_INT_MIN <= d <= C_INT_MAX) ->
  Date.new y m d = Raise OverflowError.
Proof.
  intros H. unfold Date.new.
  destruct (fits_c_int y) eqn:Hy; [| done].
  destruct (fits_c_int m) eqn:Hm; [| done].
  destruct (fits_c_int d) eqn:Hd; [| done].
  apply fits_c_int_spec in Hy, Hm, Hd. tauto.
Qed.

(** A step of at most a week from a date stays within the C [int]s. *)
Lemma new_step_invalid (y m d k : Z) :
  valid_fields y m d = true -> 0 <= k <= 7 ->
  valid_fields y m (d + k) = false ->
  Date.new y m (d + k) = Raise ValueError.
Proof.
  intros Hd Hk Hv. apply valid_fields_spec in Hd as (Hy & Hm & Hd).
  pose proof (days_in_month_bounds y m Hm).
  destruct c_int_bounds as [Hmin Hmax].
  apply new_invalid; [lia .. | done].
Qed.

Lemma new_not_Timeout (y m d : Z) : Date.new y m d <> Timeout.
Proof.
  unfold Date.new.
  by destruct (fits_c_int y && fits_c_int m && fits_c_int d),
    (valid_fields y m d).
Qed.

(** A result of the constructor is the date of its arguments, and valid. *)
Lemma new_Return (y m d : Z) (x : date) :
  Date.new y m d = Return x ->
  x = Date.mk y m d /\ valid_fields y m d = true.
Proof.
  unfold Date.new.
  destruct (fits_c_int y && fits_c_int m && fits_c_int d); [| done].
  destruct (valid_fields y m d); [| done].
  by intros [= <-].
Qed.

(** Inside one month the weekday advances with the day of the month. *)
Lemma weekday_shift (y m d k : Z) :
  weekday (Date.mk y m (d + k)) = (weekday (Date.mk y m d) + k) mod 7.
Proof.
  unfold weekday, toordinal. simpl.
  rewrite Zplus_mod_idemp_l. f_equal. lia.
Qed.

Lemma weekday_range (d : date) : 0 <= weekday d < 7.
Proof. unfold weekday. apply Z.mod_pos_bound. lia. Qed.

(** *** The forward search of [nth_weekday_of_month] *)

Lemma seek_forward_spec (fuel : nat) (w y m d : Z) :
  0 <= w < 7 ->
  valid_fields y m d = true ->
  valid_fields y m (d + (w - weekday (Date.mk y m d)) mod 7) = true ->
  (Z.to_nat ((w - weekday (Date.mk y m d)) mod 7) <= fuel)%nat ->
  seek_forward fuel w (Date.mk y m d)
  = Return (Date.mk y m (d + (w - weekday (Date.mk y m d)) mod 7)).
Proof.
  intros Hw. revert d.
  induction fuel as [| fuel IH]; intros d Hd Hend Hfuel.
  - pose proof (weekday_range (Date.mk y m d)) as Hr.
    assert (weekday (Date.mk y m d) = w) as Heq by mod7.
    simpl. rewrite Heq, Z.eqb_refl, Z.sub_diag, Zmod_0_l, Z.add_0_r. done.
  - pose proof (weekday_range (Date.mk y m d)) as Hr.
    cbn [seek_forward].
    destruct (Z.eqb_spec (weekday (Date.mk y m d)) w) as [Heq | Hne]; simpl.
    + by rewrite Heq, Z.sub_diag, Zmod_0_l, Z.add_0_r.
    + pose proof (weekday_shift y m d 1) as Hs.
      apply valid_fields_spec in Hd, Hend.
      assert ((w - weekday (Date.mk y m (d + 1))) mod 7
              = (w - weekday (Date.mk y m d)) mod 7 - 1) as Hoff
          by (rewrite Hs; mod7).
      rewrite new_valid by (apply valid_fields_spec; mod7).
      simpl. rewrite IH.
      * do 2 f_equal. rewrite Hoff. lia.
      * apply valid_fields_spec; mod7.
      * rewrite Hoff. apply valid_fields_spec. 
        replace (d + 1 + ((w - weekday (Date.mk y m d)) mod 7 - 1))
          with (d + (w - weekday (Date.mk y m d)) mod 7) by lia.
        lia.
      * rewrite Hoff. lia.
Qed.

(** The budget of the forward search is never exhausted, whatever the
    target weekday: the body runs at most [days_in_month - day] times
    before [date] raises. *)
Lemma seek_forward_terminates (fuel : nat) (w y m d : Z) :
  valid_fields y m d = true ->
  (Z.to_nat (days_in_month y m + 1 - d) <= fuel)%nat ->
  seek_forward fuel w (Date.mk y m d) <> Timeout.
Proof.
  revert d. induction fuel as [| fuel IH]; intros d Hd Hfuel.
  - apply valid_fields_spec in Hd. lia.
  - cbn [seek_forward].
    destruct (Z.eqb_spec (weekday (Date.mk y m d)) w); simpl; [done |].
    destruct (valid_fields y m (d + 1)) eqn:Hv.
    + rewrite new_valid by done. simpl. apply IH; [done | lia].
    + by rewrite new_step_invalid.
Qed.

(** *** The weekly steps of [nth_weekday_of_month] *)

Lemma add_weeks_ok (k : nat) (y m d : Z) :
  valid_fields y m d = true ->
  d + 7 * Z.of_nat k <= days_in_month y m ->
  add_weeks k (Date.mk y m d) = Return (Date.mk y m (d + 7 * Z.of_nat k)).
Proof.
  revert d. induction k as [| k IH]; intros d Hd Hend.
  - simpl. do 2 f_equal. lia.
  - apply valid_fields_spec in Hd.
    cbn [add_weeks]. simpl.
    rewrite new_valid by (apply valid_fields_spec; lia).
    simpl. rewrite IH.
    + do 2 f_equal. lia.
    + apply valid_fields_spec; lia.
    + lia.
Qed.

Lemma add_weeks_overflow (k : nat) (y m d : Z) :
  valid_fields y m d = true ->
  days_in_month y m < d + 7 * Z.of_nat k ->
  add_weeks k (Date.mk y m d) = Raise ValueError.
Proof.
  revert d. induction k as [| k IH]; intros d Hd Hend.
  - apply valid_fields_spec in Hd. lia.
  - cbn [add_weeks]. simpl.
    destruct (valid_fields y m (d + 7)) eqn:Hv.
    + rewrite new_valid by done. simpl. apply IH; [done | lia].
    + by rewrite new_step_invalid.
Qed.

(** [nth_weekday_of_month] in closed form: the first occurrence plus
    [n - 1] weeks when that day is in the month, [ValueError] otherwise. *)
Lemma nth_weekday_of_month_eq (y m w n : Z) :
  1 <= y <= 9999 -> 1 <= m <= 12 -> 0 <= w < 7 ->
  nth_weekday_of_month y m w n
  = if first_occurrence y m w + 7 * Z.max 0 (n - 1) <=? days_in_month y m
    then Return (Date.mk y m (first_occurrence y m w + 7 * Z.max 0 (n - 1)))
    else Raise ValueError.
Proof.
  intros Hy Hm Hw.
  pose proof (days_in_month_bounds y m Hm) as Hdim.
  pose proof (weekday_range (Date.mk y m 1)) as Hr.
  assert (0 <= (w - weekday (Date.mk y m 1)) mod 7 < 7) as Hoff by mod7.
  assert (valid_fields y m 1 = true) as H1 by (apply valid_fields_spec; lia).
  unfold nth_weekday_of_month, first_occurrence, forward_budget.
  rewrite new_valid, bind_Return by done.
  rewrite seek_forward_spec, bind_Return;
    [| done | done | apply valid_fields_spec; lia | lia].
  assert (Z.of_nat (Z.to_nat (n - 1)) = Z.max 0 (n - 1)) as Hk by lia.
  destruct (Z.leb_spec (1 + (w - weekday (Date.mk y m 1)) mod 7
                        + 7 * Z.max 0 (n - 1)) (days_in_month y m)).
  - rewrite add_weeks_ok, Hk; [done | apply valid_fields_spec; lia | lia].
  - rewrite add_weeks_overflow; [done | apply valid_fields_spec; lia | lia].
Qed.

(** *** Occurrences of a weekday in a month *)

Lemma occ_search_closed (c dim w : Z) :
  0 <= c < 7 -> 28 <= dim <= 31 -> 0 <= w < 7 ->
  occ_search c dim w = occ_closed c dim w.
Proof.
  intros Hc Hdim Hw.
  assert (Forall (fun c => Forall (fun dim => Forall (fun w =>
            occ_search c dim w = occ_closed c dim w)
            (seqZ 0 7)) (seqZ 28 4)) (seqZ 0 7)) as Hall
      by (apply (bool_decide_unpack _); vm_compute; exact I).
  rewrite Forall_forall in Hall.
  specialize (Hall c ltac:(apply elem_of_seqZ; lia)).
  rewrite Forall_forall in Hall.
  specialize (Hall dim ltac:(apply elem_of_seqZ; lia)).
  rewrite Forall_forall in Hall.
  apply Hall. apply elem_of_seqZ; lia.
Qed.

Lemma occurrences_closed (y m w : Z) :
  1 <= m <= 12 -> 0 <= w < 7 ->
  occurrences y m w
  = (fun k => first_occurrence y m w + 7 * k)
      <$> seqZ 0 ((days_in_month y m - first_occurrence y m w) / 7 + 1).
Proof.
  intros Hm Hw.
  pose proof (days_in_month_bounds y m Hm) as Hdim.
  set (c := (days_before_year y + days_before_month y m + 6) mod 7).
  assert (0 <= c < 7) as Hc by (apply Z.mod_pos_bound; lia).
  assert (forall d, weekday (Date.mk y m d) = (c + d) mod 7) as Hwd.
  { intros d. unfold weekday, toordinal, c. simpl.
    rewrite Zplus_mod_idemp_l. f_equal. lia. }
  transitivity (occ_search c (days_in_month y m) w).
  - unfold occurrences, occ_search, month_days.
    apply list_filter_iff. intros d. rewrite Hwd. done.
  - rewrite occ_search_closed by done.
    unfold occ_closed, first_occurrence. by rewrite Hwd.
Qed.

Lemma first_occurrence_range (y m w : Z) : 1 <= first_occurrence y m w <= 7.
Proof. unfold first_occurrence. mod7. Qed.

Lemma weekday_weeks_after_first (y m w k : Z) :
  0 <= w < 7 ->
  weekday (Date.mk y m (first_occurrence y m w + 7 * k)) = w.
Proof.
  intros Hw. unfold first_occurrence.
  pose proof (weekday_range (Date.mk y m 1)) as Hr.
  replace (1 + (w - weekday (Date.mk y m 1)) mod 7 + 7 * k)
    with (1 + ((w - weekday (Date.mk y m 1)) mod 7 + 7 * k)) by lia.
  rewrite weekday_shift. mod7.
Qed.

(** [nth_weekday_of_month] returns the [n]th element of [occurrences] and
    raises [ValueError] when there is none. *)
Lemma nth_weekday_of_month_lookup (y m w n : Z) :
  1 <= y <= 9999 -> 1 <= m <= 12 -> 0 <= w < 7 -> 1 <= n ->
  nth_weekday_of_month y m w n
  = match occurrences y m w !! Z.to_nat (n - 1) with
    | Some d => Return (Date.mk y m d)
    | None => Raise ValueError
    end.
Proof.
  intros Hy Hm Hw Hn.
  pose proof (days_in_month_bounds y m Hm) as Hdim.
  pose proof (first_occurrence_range y m w) as Hf.
  rewrite nth_weekday_of_month_eq, occurrences_closed by done.
  rewrite list_lookup_fmap, Z.max_r by lia.
  destruct (Z.leb_spec (first_occurrence y m w + 7 * (n - 1))
                       (days_in_month y m)) as [Hle | Hgt].
  - rewrite lookup_seqZ_lt by mod7. simpl.
    do 3 f_equal. lia.
  - rewrite lookup_seqZ_ge by mod7. done.
Qed.

(** *** Stepping back one day *)

Lemma days_before_year_step (y : Z) :
  days_before_year (y + 1)
  = days_before_year y + 365 + (if is_leap y then 1 else 0).
Proof.
  unfold days_before_year, is_leap.
  replace (y + 1 - 1) with y by lia.
  destruct (Z.eqb_spec (y mod 4) 0), (Z.eqb_spec (y mod 100) 0),
    (Z.eqb_spec (y mod 400) 0); simpl; mod7.
Qed.

Lemma days_before_year_nonneg (y : Z) : 1 <= y -> 0 <= days_before_year y.
Proof. intros Hy. unfold days_before_year. mod7. Qed.

Lemma days_before_month_step (y m : Z) :
  1 <= m < 12 ->
  days_before_month y (m + 1) = days_before_month y m + days_in_month y m.
Proof.
  intros Hm.
  assert (m = 1 \/ m = 2 \/ m = 3 \/ m = 4 \/ m = 5 \/ m = 6 \/ m = 7 \/
          m = 8 \/ m = 9 \/ m = 10 \/ m = 11) as Hcases by lia.
  unfold days_before_month, days_in_month.
  destruct (is_leap y);
    repeat (destruct Hcases as [-> | Hcases]; [simpl; lia |]);
    subst; simpl; lia.
Qed.

Lemma days_before_month_nonneg (y m : Z) :
  1 <= m <= 12 -> 0 <= days_before_month y m.
Proof.
  intros Hm.
  assert (m = 1 \/ m = 2 \/ m = 3 \/ m = 4 \/ m = 5 \/ m = 6 \/ m = 7 \/
          m = 8 \/ m = 9 \/ m = 10 \/ m = 11 \/ m = 12) as Hcases by lia.
  unfold days_before_month.
  destruct (is_leap y);
    repeat (destruct Hcases as [-> | Hcases]; [simpl; lia |]);
    subst; simpl; lia.
Qed.

Lemma toordinal_pos (d : date) : valid d -> 1 <= toordinal d.
Proof.
  intros Hd. apply valid_fields_spec in Hd. unfold toordinal.
  pose proof (days_before_year_nonneg (year d)).
  pose proof (days_before_month_nonneg (year d) (month d)). lia.
Qed.

(** [sub_one_day] is the date of the previous ordinal, and overflows only
    on the first day of the calendar. *)
Lemma sub_one_day_spec (d : date) :
  valid d ->
  match sub_one_day d with
  | Return d' => valid d' /\ toordinal d' = toordinal d - 1
  | Raise e => e = OverflowError /\ toordinal d = 1
  | Timeout => False
  end.
Proof.
  destruct d as [y m dd]. unfold valid, sub_one_day, MINYEAR. simpl.
  intros Hd. apply valid_fields_spec in Hd.
  destruct (Z.ltb_spec 1 dd); [| destruct (Z.ltb_spec 1 m);
                                  [| destruct (Z.ltb_spec 1 y)]].
  - split; [apply valid_fields_spec; simpl; lia |].
    unfold toordinal; simpl; lia.
  - pose proof (days_in_month_bounds y (m - 1) ltac:(lia)).
    pose proof (days_before_month_step y (m - 1) ltac:(lia)) as Hstep.
    replace (m - 1 + 1) with m in Hstep by lia.
    split; [apply valid_fields_spec; simpl; lia |].
    unfold toordinal; simpl; lia.
  - assert (m = 1) as -> by lia.
    pose proof (days_before_year_step (y - 1)) as Hstep.
    replace (y - 1 + 1) with y in Hstep by lia.
    split.
    + apply valid_fields_spec; simpl. unfold days_in_month; simpl. lia.
    + unfold toordinal; simpl. unfold days_before_month. simpl.
      destruct (is_leap (y - 1)); lia.
  - assert (m = 1 /\ y = 1 /\ dd = 1) as (-> & -> & ->) by lia.
    by vm_compute.
Qed.

(** *** The backward search of [last_weekday_of_month] *)

Lemma sub_one_day_in_month (y m d : Z) :
  1 < d -> sub_one_day (Date.mk y m d) = Return (Date.mk y m (d - 1)).
Proof.
  intros Hd. unfold sub_one_day. simpl.
  by destruct (Z.ltb_spec 1 d); [| lia].
Qed.

Lemma seek_backward_spec (fuel : nat) (w y m d : Z) :
  0 <= w < 7 ->
  1 <= d - (weekday (Date.mk y m d) - w) mod 7 ->
  (Z.to_nat ((weekday (Date.mk y m d) - w) mod 7) <= fuel)%nat ->
  seek_backward fuel w (Date.mk y m d)
  = Return (Date.mk y m (d - (weekday (Date.mk y m d) - w) mod 7)).
Proof.
  intros Hw. revert d.
  induction fuel as [| fuel IH]; intros d Hend Hfuel;
    pose proof (weekday_range (Date.mk y m d)) as Hr.
  - assert (weekday (Date.mk y m d) = w) as Heq by mod7.
    simpl. by rewrite Heq, Z.eqb_refl, Z.sub_diag, Zmod_0_l, Z.sub_0_r.
  - cbn [seek_backward].
    destruct (Z.eqb_spec (weekday (Date.mk y m d)) w) as [Heq | Hne]; simpl.
    + by rewrite Heq, Z.sub_diag, Zmod_0_l, Z.sub_0_r.
    + pose proof (weekday_shift y m (d - 1) 1) as Hs.
      replace (d - 1 + 1) with d in Hs by lia.
      pose proof (weekday_range (Date.mk y m (d - 1))) as Hr'.
      assert ((weekday (Date.mk y m (d - 1)) - w) mod 7
              = (weekday (Date.mk y m d) - w) mod 7 - 1) as Hoff by mod7.
      rewrite sub_one_day_in_month, bind_Return by mod7.
      rewrite IH.
      * do 2 f_equal. rewrite Hoff. lia.
      * rewrite Hoff. lia.
      * rewrite Hoff. lia.
Qed.

(** The budget of the backward search is never exhausted, whatever the
    target weekday: each step lowers the ordinal, which stays positive. *)
Lemma seek_backward_terminates (fuel : nat) (w : Z) (d : date) :
  valid d ->
  (Z.to_nat (toordinal d) <= fuel)%nat ->
  seek_backward fuel w d <> Timeout.
Proof.
  revert d. induction fuel as [| fuel IH]; intros d Hd Hfuel.
  - pose proof (toordinal_pos d Hd). lia.
  - cbn [seek_backward].
    destruct (Z.eqb_spec (weekday d) w); simpl; [done |].
    pose proof (sub_one_day_spec d Hd) as Hsub.
    destruct (sub_one_day d) as [d' | e |]; [| done | done].
    destruct Hsub as [Hd' Hord]. rewrite bind_Return.
    apply IH; [done | lia].
Qed.

(** The last day of the month, as [last_weekday_of_month] finds it. *)
Lemma last_day_of_month (y m : Z) :
  1 <= y <= 9999 -> 1 <= m <= 12 ->
  (if m =? 12 then Date.new y 12 31
   else first_next ← Date.new y (m + 1) 1; sub_one_day first_next)
  = Return (Date.mk y m (days_in_month y m)).
Proof.
  intros Hy Hm. destruct (Z.eqb_spec m 12) as [-> | Hne].
  - by rewrite new_valid
      by (apply valid_fields_spec; unfold days_in_month; simpl; lia).
  - pose proof (days_in_month_bounds y (m + 1) ltac:(lia)).
    rewrite new_valid, bind_Return by (apply valid_fields_spec; lia).
    unfold sub_one_day. simpl.
    destruct (Z.ltb_spec 1 (m + 1)); [| lia].
    by replace (m + 1 - 1) with m by lia.
Qed.

(** [last_weekday_of_month] in closed form. *)
Lemma last_weekday_of_month_eq (y m w : Z) :
  1 <= y <= 9999 -> 1 <= m <= 12 -> 0 <= w < 7 ->
  last_weekday_of_month y m w
  = Return (Date.mk y m
              (days_in_month y m
               - (weekday (Date.mk y m (days_in_month y m)) - w) mod 7)).
Proof.
  intros Hy Hm Hw.
  pose proof (days_in_month_bounds y m Hm) as Hdim.
  pose proof (weekday_range (Date.mk y m (days_in_month y m))) as Hr.
  unfold last_weekday_of_month.
  rewrite last_day_of_month, bind_Return by done.
  apply seek_backward_spec; [done | mod7 |].
  assert (valid (Date.mk y m (days_in_month y m))) as Hv
      by (apply valid_fields_spec; simpl; lia).
  unfold backward_budget, toordinal. simpl.
  pose proof (days_before_year_nonneg y ltac:(lia)).
  pose proof (days_before_month_nonneg y m Hm).
  apply Z2Nat.inj_le; mod7.
Qed.

(** *** Neither function exhausts its budget *)

Lemma add_weeks_terminates (k : nat) (d : date) : add_weeks k d <> Timeout.
Proof.
  revert d. induction k as [| k IH]; intros d; [done |].
  cbn [add_weeks].
  destruct (Date.new _ _ _) as [d' | e |] eqn:Hnew;
    [rewrite bind_Return; apply IH | done | by apply new_not_Timeout in Hnew].
Qed.

Lemma nth_weekday_of_month_terminates (y m w n : Z) :
  nth_weekday_of_month y m w n <> Timeout.
Proof.
  unfold nth_weekday_of_month.
  destruct (Date.new y m 1) as [d1 | e |] eqn:Hnew;
    [| done | by apply new_not_Timeout in Hnew].
  apply new_Return in Hnew as [-> Hv].
  rewrite bind_Return.
  pose proof (seek_forward_terminates forward_budget w y m 1 Hv) as Hfw.
  apply valid_fields_spec in Hv.
  pose proof (days_in_month_bounds y m ltac:(lia)).
  destruct (seek_forward forward_budget w (Date.mk y m 1)) as [d | e |].
  - rewrite bind_Return. apply add_weeks_terminates.
  - done.
  - exfalso. apply Hfw; [unfold forward_budget; lia | done].
Qed.

Lemma last_weekday_of_month_terminates (y m w : Z) :
  last_weekday_of_month y m w <> Timeout.
Proof.
  unfold last_weekday_of_month.
  assert (forall last : outcome date,
             match last with Return d => valid d | _ => True end ->
             last <> Timeout ->
             (last ≫= fun last => seek_backward (backward_budget last) w last)
             <> Timeout) as Hloop.
  { intros [d | e |] Hv Hne; [| done | done].
    rewrite bind_Return. by apply seek_backward_terminates. }
  destruct (m =? 12).
  - apply Hloop; [| apply new_not_Timeout].
    destruct (Date.new y 12 31) as [d | e |] eqn:Hnew; [| done | done].
    by apply new_Return in Hnew as [-> Hv].
  - destruct (Date.new y (m + 1) 1) as [d1 | e |] eqn:Hnew;
      [| done | by apply new_not_Timeout in Hnew].
    apply new_Return in Hnew as [-> Hv].
    rewrite bind_Return.
    pose proof (sub_one_day_spec (Date.mk y (m + 1) 1) Hv) as Hsub.
    destruct (sub_one_day (Date.mk y (m + 1) 1)) as [d | e |];
      [apply Hloop; [apply Hsub | done] | done | done].
Qed.

(** Every month has a first to fourth occurrence of every weekday. *)
Lemma nth_weekday_of_month_upto4 (y m w n : Z) :
  1 <= y <= 9999 -> 1 <= m <= 12 -> 0 <= w < 7 -> 1 <= n <= 4 ->
  nth_weekday_of_month y m w n
  = Return (Date.mk y m (first_occurrence y m w + 7 * (n - 1))).
Proof.
  intros Hy Hm Hw Hn.
  pose proof (days_in_month_bounds y m Hm) as Hdim.
  pose proof (first_occurrence_range y m w) as Hf.
  rewrite nth_weekday_of_month_eq, Z.max_r by lia.
  by destruct (Z.leb_spec (first_occurrence y m w + 7 * (n - 1))
                          (days_in_month y m)); [| lia].
Qed.

End calendar.

(** ** [nth_weekday_of_month] *)

(** Claim C4: for a valid year, month, weekday (Monday 0 .. Sunday 6) and
    a 1-based index [n] such that the month has at least [n] days falling
    on that weekday, [nth_weekday_of_month] returns a date of that year
    and month, whose weekday is the requested one and whose day of the
    month lies in [1 + 7 (n - 1), 7 n]; it is the [n]th such day. *)
Theorem nth_weekday_of_month_spec (y m w n : Z) :
  1 <= y <= 9999 -> 1 <= m <= 12 -> 0 <= w <= 6 -> 1 <= n ->
  (Z.to_nat n <= length (occurrences y m w))%nat ->
  exists d,
    nth_weekday_of_month y m w n = Return d /\
    year d = y /\ month d = m /\ weekday d = w /\
    1 + 7 * (n - 1) <= day d <= 7 * n /\
    occurrences y m w !! Z.to_nat (n - 1) = Some (day d).
Proof.
  intros Hy Hm Hw Hn Hocc.
  assert (is_Some (occurrences y m w !! Z.to_nat (n - 1))) as [d Hd]
      by (apply lookup_lt_is_Some_2; lia).
  exists (Date.mk y m d).
  rewrite nth_weekday_of_month_lookup, Hd by lia.
  rewrite occurrences_closed, list_lookup_fmap in Hd by lia.
  destruct (seqZ _ _ !! _) as [k |] eqn:Hk; [| done].
  apply lookup_seqZ in Hk as [-> Hlt]. simplify_eq/=.
  pose proof (first_occurrence_range y m w).
  repeat split; try lia.
  apply weekday_weeks_after_first; lia.
Qed.

Lemma nth_weekday_of_month_spec_witness :
  exists d,
    nth_weekday_of_month 2024 11 3 4 = Return d /\
    year d = 2024 /\ month d = 11 /\ weekday d = 3 /\
    1 + 7 * (4 - 1) <= day d <= 7 * 4 /\
    occurrences 2024 11 3 !! Z.to_nat (4 - 1) = Some (day d).
Proof.
  apply nth_weekday_of_month_spec; [lia | lia | lia | lia |].
  vm_compute. lia.
Defined.

(** Claim C1, as stated, fails: the forward stepping does not roll over.
    The fifth Monday of January 2024 is the 29th; seven days later the
    code builds [date(2024, 1, 36)], which raises, so asking for a sixth
    Monday fails instead of landing in February. *)
Lemma nth_weekday_of_month_no_rollover :
  nth_weekday_of_month 2024 1 0 5 = Return (Date.mk 2024 1 29) /\
  add_weeks 1 (Date.mk 2024 1 29) = Raise ValueError /\
  nth_weekday_of_month 2024 1 0 6 = Raise ValueError /\
  ~ (exists d, nth_weekday_of_month 2024 1 0 6 = Return d /\ month d = 2).
Proof.
  repeat split; try by vm_compute.
  intros (d & Hd & _). vm_compute in Hd. discriminate.
Qed.

(** Claim C1, amended: the forward stepping changes the day of the month
    only.  For a valid year, month, weekday and [n >= 1]: when the month
    has an [n]th occurrence of the weekday all steps succeed and the result
    is in the same year and month; when it has none, the step that would
    pass the end of the month raises [ValueError]; in no case is a date of
    another month returned. *)
Theorem nth_weekday_of_month_stays_in_month (y m w n : Z) :
  1 <= y <= 9999 -> 1 <= m <= 12 -> 0 <= w <= 6 -> 1 <= n ->
  ((Z.to_nat n <= length (occurrences y m w))%nat ->
   exists d, nth_weekday_of_month y m w n = Return d /\
             year d = y /\ month d = m) /\
  ((length (occurrences y m w) < Z.to_nat n)%nat ->
   nth_weekday_of_month y m w n = Raise ValueError) /\
  (forall d, nth_weekday_of_month y m w n = Return d ->
             year d = y /\ month d = m).
Proof.
  intros Hy Hm Hw Hn.
  rewrite nth_weekday_of_month_lookup by lia.
  split; [| split].
  - intros Hocc.
    assert (is_Some (occurrences y m w !! Z.to_nat (n - 1))) as [d ->]
        by (apply lookup_lt_is_Some_2; lia).
    by exists (Date.mk y m d).
  - intros Hocc. rewrite lookup_ge_None_2; [done | lia].
  - intros d. destruct (_ !! _); [by intros [= <-] | done].
Qed.

Lemma nth_weekday_of_month_stays_in_month_witness :
  ((Z.to_nat 6 <= length (occurrences 2024 1 0))%nat ->
   exists d, nth_weekday_of_month 2024 1 0 6 = Return d /\
             year d = 2024 /\ month d = 1) /\
  ((length (occurrences 2024 1 0) < Z.to_nat 6)%nat ->
   nth_weekday_of_month 2024 1 0 6 = Raise ValueError) /\
  (forall d, nth_weekday_of_month 2024 1 0 6 = Return d ->
             year d = 2024 /\ month d = 1).
Proof.
  apply nth_weekday_of_month_stays_in_month; lia.
Defined.

(** ** [last_weekday_of_month] *)

(** Claim C5: for a valid year, month and weekday, [last_weekday_of_month]
    returns a date of that year and month with the requested weekday, and no
    later day of the month has that weekday; in December the search starts
    at December 31st and the first day of a following month (which [date]
    would refuse) is never built. *)
Theorem last_weekday_of_month_spec (y m w : Z) :
  1 <= y <= 9999 -> 1 <= m <= 12 -> 0 <= w <= 6 ->
  (exists d,
      last_weekday_of_month y m w = Return d /\
      year d = y /\ month d = m /\ weekday d = w /\
      1 <= day d <= days_in_month y m /\
      forall d', day d < d' <= days_in_month y m ->
                 weekday (Date.mk y m d') <> w) /\
  (m = 12 ->
   Date.new y (m + 1) 1 = Raise ValueError /\
   last_weekday_of_month y m w
   = seek_backward (backward_budget (Date.mk y 12 31)) w (Date.mk y 12 31)).
Proof.
  intros Hy Hm Hw. split.
  - pose proof (days_in_month_bounds y m Hm) as Hdim.
    pose proof (weekday_range (Date.mk y m (days_in_month y m))) as Hr.
    set (off := (weekday (Date.mk y m (days_in_month y m)) - w) mod 7).
    assert (0 <= off < 7) as Hoff by (apply Z.mod_pos_bound; lia).
    assert (weekday (Date.mk y m (days_in_month y m - off)) = w) as Hwd.
    { pose proof (weekday_shift y m (days_in_month y m - off) off) as Hs.
      replace (days_in_month y m - off + off) with (days_in_month y m)
        in Hs by lia.
      pose proof (weekday_range (Date.mk y m (days_in_month y m - off))).
      unfold off in *. mod7. }
    exists (Date.mk y m (days_in_month y m - off)).
    rewrite last_weekday_of_month_eq by lia. simpl.
    repeat split; try done; try lia.
    intros d' Hd' Heq.
    pose proof (weekday_shift y m (days_in_month y m - off)
                  (d' - (days_in_month y m - off))) as Hs.
    replace (days_in_month y m - off + (d' - (days_in_month y m - off)))
      with d' in Hs by lia.
    rewrite Hwd, Heq in Hs. mod7.
  - intros ->. split.
    + apply new_invalid; [c_int .. |]. apply not_true_is_false.
      rewrite valid_fields_spec. lia.
    + unfold last_weekday_of_month. simpl.
      by rewrite new_valid
        by (apply valid_fields_spec; unfold days_in_month; simpl; lia).
Qed.

Lemma last_weekday_of_month_spec_witness :
  (exists d,
      last_weekday_of_month 2024 5 0 = Return d /\
      year d = 2024 /\ month d = 5 /\ weekday d = 0 /\
      1 <= day d <= days_in_month 2024 5 /\
      forall d', day d < d' <= days_in_month 2024 5 ->
                 weekday (Date.mk 2024 5 d') <> 0) /\
  (5 = 12 ->
   Date.new 2024 (5 + 1) 1 = Raise ValueError /\
   last_weekday_of_month 2024 5 0
   = seek_backward (backward_budget (Date.mk 2024 12 31)) 0
       (Date.mk 2024 12 31)).
Proof.
  apply last_weekday_of_month_spec; lia.
Defined.

(** ** [build_us_holidays_for_year] *)

(** The ten dates of the rules, the last one added first. *)
Lemma build_us_holidays_for_year_eq (y : Z) :
  1 <= y <= 9999 ->
  exists mlk pres mem lab col thx : Z,
    15 <= mlk <= 21 /\ 15 <= pres <= 21 /\ 25 <= mem <= 31 /\
    1 <= lab <= 7 /\ 8 <= col <= 14 /\ 22 <= thx <= 28 /\
    nth_weekday_of_month y 1 0 3 = Return (Date.mk y 1 mlk) /\
    nth_weekday_of_month y 2 0 3 = Return (Date.mk y 2 pres) /\
    last_weekday_of_month y 5 0 = Return (Date.mk y 5 mem) /\
    nth_weekday_of_month y 9 0 1 = Return (Date.mk y 9 lab) /\
    nth_weekday_of_month y 10 0 2 = Return (Date.mk y 10 col) /\
    nth_weekday_of_month y 11 3 4 = Return (Date.mk y 11 thx) /\
    build_us_holidays_for_year y
    = Return (list_to_set
                [Date.mk y 11 thx; Date.mk y 10 col; Date.mk y 9 lab;
                 Date.mk y 5 mem; Date.mk y 2 pres; Date.mk y 1 mlk;
                 Date.mk y 12 25; Date.mk y 11 11; Date.mk y 7 4;
                 Date.mk y 1 1]).
Proof.
  intros Hy.
  pose proof (first_occurrence_range y 1 0).
  pose proof (first_occurrence_range y 2 0).
  pose proof (first_occurrence_range y 9 0).
  pose proof (first_occurrence_range y 10 0).
  pose proof (first_occurrence_range y 11 3).
  pose proof (weekday_range (Date.mk y 5 (days_in_month y 5))).
  assert (days_in_month y 5 = 31) as Hmay by done.
  exists (first_occurrence y 1 0 + 7 * (3 - 1)),
    (first_occurrence y 2 0 + 7 * (3 - 1)),
    (days_in_month y 5
     - (weekday (Date.mk y 5 (days_in_month y 5)) - 0) mod 7),
    (first_occurrence y 9 0 + 7 * (1 - 1)),
    (first_occurrence y 10 0 + 7 * (2 - 1)),
    (first_occurrence y 11 3 + 7 * (4 - 1)).
  unfold build_us_holidays_for_year.
  rewrite !nth_weekday_of_month_upto4, last_weekday_of_month_eq by lia.
  rewrite !new_valid
    by (apply valid_fields_spec; unfold days_in_month; simpl; lia).
  repeat split; try done; mod7.
Qed.

(** Claim C2, as stated, fails: not every integer is a year of the
    calendar; for year 0 the first [date(y, 1, 1)] raises [ValueError],
    and for year 2^31, which does not fit a C [int], [OverflowError]. *)
Lemma build_us_holidays_for_year_year_0 :
  build_us_holidays_for_year 0 = Raise ValueError /\
  ~ (exists hol, build_us_holidays_for_year 0 = Return hol /\
                 size hol = 10%nat) /\
  build_us_holidays_for_year (2 ^ 31) = Raise OverflowError.
Proof.
  split; [done |]. split; [by intros (hol & [=] & _) |].
  vm_compute. reflexivity.
Qed.

(** Claim C2, amended: for every year of the calendar, 1 to 9999,
    [build_us_holidays_for_year] returns a set of exactly 10 dates, all
    of that year, and the ten rules produce pairwise distinct dates.  For
    every other integer the first [date(y, 1, 1)] raises: [ValueError]
    when the year fits a C [int], [OverflowError] when it does not. *)
Theorem build_us_holidays_for_year_spec (y : Z) :
  (1 <= y <= 9999 ->
   exists (hol : gset date) (mlk pres mem lab col thx : date),
     build_us_holidays_for_year y = Return hol /\
     size hol = 10%nat /\
     (forall d, d ∈ hol -> year d = y) /\
     nth_weekday_of_month y 1 0 3 = Return mlk /\
     nth_weekday_of_month y 2 0 3 = Return pres /\
     last_weekday_of_month y 5 0 = Return mem /\
     nth_weekday_of_month y 9 0 1 = Return lab /\
     nth_weekday_of_month y 10 0 2 = Return col /\
     nth_weekday_of_month y 11 3 4 = Return thx /\
     NoDup [Date.mk y 1 1; Date.mk y 7 4; Date.mk y 11 11; Date.mk y 12 25;
            mlk; pres; mem; lab; col; thx] /\
     (forall d, d ∈ hol <->
                d ∈ [Date.mk y 1 1; Date.mk y 7 4; Date.mk y 11 11;
                     Date.mk y 12 25; mlk; pres; mem; lab; col; thx])) /\
  (~ 1 <= y <= 9999 -> C_INT_MIN <= y <= C_INT_MAX ->
   build_us_holidays_for_year y = Raise ValueError) /\
  (~ C_INT_MIN <= y <= C_INT_MAX ->
   build_us_holidays_for_year y = Raise OverflowError).
Proof.
  split; [| split].
  2: { intros Hbad Hfit. unfold build_us_holidays_for_year.
       rewrite (new_invalid y 1 1); [reflexivity | done | c_int | c_int |].
       apply not_true_is_false. rewrite valid_fields_spec. lia. }
  2: { intros Hbig. unfold build_us_holidays_for_year.
       rewrite (new_overflow y 1 1); [reflexivity | tauto]. }
  intros Hy.
  destruct (build_us_holidays_for_year_eq y Hy)
    as (mlk & pres & mem & lab & col & thx & Hmlk & Hpres & Hmem & Hlab
        & Hcol & Hthx & -> & -> & -> & -> & -> & -> & ->).
  eexists _, _, _, _, _, _, _.
  split; [done |].
  assert (NoDup [Date.mk y 11 thx; Date.mk y 10 col; Date.mk y 9 lab;
                 Date.mk y 5 mem; Date.mk y 2 pres; Date.mk y 1 mlk;
                 Date.mk y 12 25; Date.mk y 11 11; Date.mk y 7 4;
                 Date.mk y 1 1]) as Hnodup.
  { repeat (apply NoDup_cons_2;
            [rewrite ?not_elem_of_cons; repeat split;
             try (by apply not_elem_of_nil); intros [=]; lia |]).
    apply NoDup_nil_2. }
  split; [by rewrite size_list_to_set |].
  split.
  { intros d. rewrite elem_of_list_to_set, !elem_of_cons, elem_of_nil.
    intros Hd. repeat (destruct Hd as [-> | Hd]; [done |]). done. }
  do 6 (split; [done |]).
  split.
  - rewrite <- reverse_Permutation in Hnodup. exact Hnodup.
  - intros d. rewrite elem_of_list_to_set, !elem_of_cons, !elem_of_nil.
    tauto.
Qed.

Lemma build_us_holidays_for_year_spec_witness :
  exists (hol : gset date) (mlk pres mem lab col thx : date),
    build_us_holidays_for_year 2024 = Return hol /\
    size hol = 10%nat /\
    (forall d, d ∈ hol -> year d = 2024) /\
    nth_weekday_of_month 2024 1 0 3 = Return mlk /\
    nth_weekday_of_month 2024 2 0 3 = Return pres /\
    last_weekday_of_month 2024 5 0 = Return mem /\
    nth_weekday_of_month 2024 9 0 1 = Return lab /\
    nth_weekday_of_month 2024 10 0 2 = Return col /\
    nth_weekday_of_month 2024 11 3 4 = Return thx /\
    NoDup [Date.mk 2024 1 1; Date.mk 2024 7 4; Date.mk 2024 11 11;
           Date.mk 2024 12 25; mlk; pres; mem; lab; col; thx] /\
    (forall d, d ∈ hol <->
               d ∈ [Date.mk 2024 1 1; Date.mk 2024 7 4; Date.mk 2024 11 11;
                    Date.mk 2024 12 25; mlk; pres; mem; lab; col; thx]).
Proof.
  apply (proj1 (build_us_holidays_for_year_spec 2024)). lia.
Defined.

(** Claim C8: for 2024 the returned set contains Martin Luther King Day
    on January 15th, Presidents Day on February 19th, Memorial Day on May
    27th, Labor Day on September 2nd, Columbus Day on October 14th and
    Thanksgiving on November 28th; the first five are Mondays and the last
    a Thursday. *)
Theorem build_us_holidays_for_year_2024 :
  exists hol : gset date,
    build_us_holidays_for_year 2024 = Return hol /\
    Date.mk 2024 1 15 ∈ hol /\ Date.mk 2024 2 19 ∈ hol /\
    Date.mk 2024 5 27 ∈ hol /\ Date.mk 2024 9 2 ∈ hol /\
    Date.mk 2024 10 14 ∈ hol /\ Date.mk 2024 11 28 ∈ hol /\
    nth_weekday_of_month 2024 1 0 3 = Return (Date.mk 2024 1 15) /\
    nth_weekday_of_month 2024 2 0 3 = Return (Date.mk 2024 2 19) /\
    last_weekday_of_month 2024 5 0 = Return (Date.mk 2024 5 27) /\
    nth_weekday_of_month 2024 9 0 1 = Return (Date.mk 2024 9 2) /\
    nth_weekday_of_month 2024 10 0 2 = Return (Date.mk 2024 10 14) /\
    nth_weekday_of_month 2024 11 3 4 = Return (Date.mk 2024 11 28) /\
    weekday (Date.mk 2024 1 15) = 0 /\ weekday (Date.mk 2024 11 28) = 3.
Proof.
  assert (nth_weekday_of_month 2024 1 0 3 = Return (Date.mk 2024 1 15))
    as Hmlk by (vm_compute; reflexivity).
  assert (nth_weekday_of_month 2024 2 0 3 = Return (Date.mk 2024 2 19))
    as Hpres by (vm_compute; reflexivity).
  assert (last_weekday_of_month 2024 5 0 = Return (Date.mk 2024 5 27))
    as Hmem by (vm_compute; reflexivity).
  assert (nth_weekday_of_month 2024 9 0 1 = Return (Date.mk 2024 9 2))
    as Hlab by (vm_compute; reflexivity).
  assert (nth_weekday_of_month 2024 10 0 2 = Return (Date.mk 2024 10 14))
    as Hcol by (vm_compute; reflexivity).
  assert (nth_weekday_of_month 2024 11 3 4 = Return (Date.mk 2024 11 28))
    as Hthx by (vm_compute; reflexivity).
  eexists. split.
  { unfold build_us_holidays_for_year.
    rewrite Hmlk, Hpres, Hmem, Hlab, Hcol, Hthx.
    rewrite !new_valid by (vm_compute; reflexivity).
    rewrite !bind_Return. reflexivity. }
  unfold set_add.
  repeat split; try done; set_solver.
Qed.

(** ** Engineered flags at a missing date *)

Lemma collect_years_from_column (col : date_column) (y : Z) :
  y ∈ collect_years col -> exists d, Some d ∈ col /\ year d = y.
Proof.
  unfold collect_years.
  assert (forall (l : list date) (acc : list Z),
             y ∈ foldl (fun years dval =>
                          if bool_decide (year dval ∈ years) then years
                          else years ++ [year dval]) acc l ->
             y ∈ acc \/ exists d, d ∈ l /\ year d = y) as Hfold.
  { induction l as [| d l IH]; intros acc Hy; simpl in Hy; [by left |].
    apply IH in Hy as [Hy | (d' & Hd' & <-)].
    - case_bool_decide; [by left |].
      apply elem_of_app in Hy as [Hy | Hy]; [by left |].
      apply list_elem_of_singleton in Hy as ->.
      right. exists d. split; [left | done].
    - right. exists d'. split; [by right | done]. }
  intros Hy. apply Hfold in Hy as [Hy | (d & Hd & <-)].
  - by apply elem_of_nil in Hy.
  - exists d. split; [| done].
    apply list_elem_of_omap in Hd as (o & Ho & Hid). by simplify_eq/=.
Qed.

Lemma build_calendar_returns (years : list Z) (cal : gmap Z (gset date)) :
  Forall (fun y => 1 <= y <= 9999) years ->
  exists cal', build_calendar years cal = Return cal'.
Proof.
  intros Hyears. revert cal.
  induction Hyears as [| y years Hy _ IH]; intros cal; simpl; [by eexists |].
  destruct (build_us_holidays_for_year_eq y Hy)
    as (? & ? & ? & ? & ? & ? & _ & _ & _ & _ & _ & _
        & _ & _ & _ & _ & _ & _ & Hhol).
  rewrite Hhol, bind_Return. apply IH.
Qed.

(** With timestamps that are calendar dates the calendar of the run is
    built without an exception. *)
Lemma holiday_calendar_returns (col : date_column) :
  Forall (fun c => forall d, c = Some d -> valid d) col ->
  exists cal, holiday_calendar col = Return cal.
Proof.
  intros Hcol. apply build_calendar_returns.
  apply Forall_forall. intros y Hy.
  unfold sorted_years in Hy. rewrite merge_sort_Permutation in Hy.
  apply collect_years_from_column in Hy as (d & Hd & <-).
  rewrite Forall_forall in Hcol.
  specialize (Hcol _ Hd d eq_refl).
  apply valid_fields_spec in Hcol. lia.
Qed.

(** Claim C9: at every row whose date is missing, [is_holiday] is missing
    but [is_weekend] is [False]: the weekday of the row is missing and the
    comparison [>= 5] of a missing value is false. *)
Theorem missing_date_flags (col : date_column) (i : nat) :
  Forall (fun c => forall d, c = Some d -> valid d) col ->
  col !! i = Some None ->
  exists hvals,
    is_holiday_vals col = Return hvals /\
    hvals !! i = Some None /\
    dt_weekday col !! i = Some None /\
    is_weekend col !! i = Some false.
Proof.
  intros Hcol Hi.
  destruct (holiday_calendar_returns col Hcol) as [cal Hcal].
  exists (is_holiday_val cal <$> col).
  unfold is_holiday_vals, is_weekend, series_ge, dt_weekday.
  rewrite Hcal, bind_Return, !list_lookup_fmap, Hi. done.
Qed.

Lemma missing_date_flags_witness :
  exists hvals,
    is_holiday_vals [Some (Date.mk 2024 1 15); None] = Return hvals /\
    hvals !! 1%nat = Some None /\
    dt_weekday [Some (Date.mk 2024 1 15); None] !! 1%nat = Some None /\
    is_weekend [Some (Date.mk 2024 1 15); None] !! 1%nat = Some false.
Proof.
  apply missing_date_flags; [| reflexivity].
  repeat constructor; intros d [= <-]; reflexivity.
Defined.

(** ** The numeric summary *)

Section summary.

Local Open Scope Q_scope.

Lemma dropna_all_missing (col : list float) :
  Forall (fun v => v = None) col -> dropna col = [].
Proof.
  unfold dropna. induction 1 as [| v col -> _ IH]; [done |]. simpl. exact IH.
Qed.

Lemma length_sort_values (s : list Q) : length (sort_values s) = length s.
Proof. unfold sort_values. by rewrite merge_sort_Permutation. Qed.

Lemma sort_values_cons (s : list Q) :
  s <> [] -> exists x0 xs, sort_values s = x0 :: xs.
Proof.
  intros Hs. pose proof (length_sort_values s) as Hlen.
  destruct (sort_values s) as [| x0 xs]; [| by eauto].
  destruct s; [done | discriminate].
Qed.

Lemma quantile_nonempty (s : list Q) (q : Q) :
  s <> [] -> exists v, quantile s q = Some v.
Proof.
  intros Hs. unfold quantile.
  destruct (sort_values_cons s Hs) as (x0 & xs & ->). by eexists.
Qed.

(** *** The outlier count *)

Lemma Qlt_bool_spec (x y : Q) : Qlt_bool x y = true <-> x < y.
Proof.
  unfold Qlt_bool. rewrite Qlt_alt. by destruct (x ?= y).
Qed.

Lemma flt_Some_r (v : float) (y : Q) :
  flt v (Some y) = true <-> exists x, v = Some x /\ x < y.
Proof.
  destruct v as [x |]; simpl.
  - rewrite Qlt_bool_spec.
    split; [by exists x | by intros (x' & [= <-] & Hlt)].
  - split; [done | by intros (x & [=] & _)].
Qed.

Lemma flt_Some_l (v : float) (y : Q) :
  flt (Some y) v = true <-> exists x, v = Some x /\ y < x.
Proof.
  destruct v as [x |]; simpl.
  - rewrite Qlt_bool_spec.
    split; [by exists x | by intros (x' & [= <-] & Hlt)].
  - split; [done | by intros (x & [=] & _)].
Qed.

Lemma outlier_mask_cons (v : float) (col : list float) (lower upper : float) :
  outlier_mask (v :: col) lower upper
  = (flt v lower || flt upper v) :: outlier_mask col lower upper.
Proof. done. Qed.

Lemma outlier_cell_outside (lower upper : Q) (v : float) :
  flt v (Some lower) || flt (Some upper) v = true <-> outside lower upper v.
Proof.
  destruct v as [x |]; simpl.
  - by rewrite orb_true_iff, !Qlt_bool_spec.
  - done.
Qed.

Lemma mask_sum_cons (b : bool) (mask : list bool) :
  mask_sum (b :: mask) = (Z.b2z b + mask_sum mask)%Z.
Proof. done. Qed.

(** The sum of the mask counts the rows outside the fences. *)
Lemma mask_sum_outlier_mask (col : list float) (lower upper : Q) :
  mask_sum (outlier_mask col (Some lower) (Some upper))
  = Z.of_nat (length (outlier_rows lower upper col)).
Proof.
  unfold outlier_rows.
  induction col as [| v col IH]; [done |].
  rewrite outlier_mask_cons, mask_sum_cons, filter_cons, IH.
  pose proof (outlier_cell_outside lower upper v) as Hv.
  destruct (decide (outside lower upper v)) as [Hout | Hout].
  - apply Hv in Hout as ->. simpl length. simpl Z.b2z. lia.
  - destruct (flt v (Some lower) || flt (Some upper) v); [| done].
    exfalso. by apply Hout, Hv.
Qed.

(** Missing rows are not counted: the rows outside the fences are those of
    the non-missing values. *)
Lemma outlier_rows_dropna (col : list float) (lower upper : Q) :
  length (outlier_rows lower upper col)
  = length (filter (fun x => x < lower \/ upper < x) (dropna col)).
Proof.
  unfold outlier_rows, dropna.
  induction col as [| [x |] col IH]; [done | |].
  - simpl omap. rewrite !filter_cons.
    destruct (decide (outside lower upper (Some x))) as [Hout | Hout];
      destruct (decide (x < lower \/ upper < x)) as [Hx | Hx];
      [simpl; by rewrite IH | done | done | exact IH].
  - simpl omap. rewrite filter_cons_False by (by intros []). exact IH.
Qed.


(** *** The record of a column with a non-missing value *)

Lemma dropna_length (col : list float) :
  (length (dropna col) <= length col)%nat.
Proof.
  unfold dropna. induction col as [| [x |] col IH]; simpl.
  - done.
  - apply le_n_S, IH.
  - apply le_S, IH.
Qed.

Lemma fence_row_nonempty (c : string) (col : list float) :
  dropna col <> [] ->
  exists q1 q3 : Q,
    quantile (dropna col) (25 # 100) = Some q1 /\
    quantile (dropna col) (75 # 100) = Some q3 /\
    fence_row c col
    = Row.mk c
        (Z.of_nat (length (dropna col)))
        (round2 (series_mean (dropna col)))
        (series_std_round2 (dropna col))
        (series_min (dropna col))
        (Some q1)
        (series_median (dropna col))
        (Some q3)
        (series_max (dropna col))
        (Some (q3 - q1))
        (Some (q1 - (15 # 10) * (q3 - q1)))
        (Some (q3 + (15 # 10) * (q3 - q1)))
        (round2
           (Some (inject_Z
                    (Z.of_nat
                       (length (outlier_rows (q1 - (15 # 10) * (q3 - q1))
                                             (q3 + (15 # 10) * (q3 - q1))
                                             col)))
                  / inject_Z (Z.of_nat (length col)) * 100))).
Proof.
  intros Hs.
  destruct (quantile_nonempty (dropna col) (25 # 100) Hs) as [q1 Hq1].
  destruct (quantile_nonempty (dropna col) (75 # 100) Hs) as [q3 Hq3].
  exists q1, q3. split; [done |]. split; [done |].
  pose proof (dropna_length col) as Hlen.
  unfold fence_row. rewrite Hq1, Hq3.
  destruct (dropna col) as [| x s] eqn:Hdrop; [done |].
  cbn [length Nat.eqb fsub fadd fmul lift2].
  rewrite mask_sum_outlier_mask.
  assert (Qeq_bool (inject_Z (Z.of_nat (length col))) 0 = false) as Hnz.
  { apply not_true_is_false. intros Heq%Qeq_bool_eq.
    unfold Qeq in Heq. simpl in *. lia. }
  unfold fdiv. by rewrite Hnz.
Qed.

(** *** Quantiles of sorted values *)

#[local] Instance Qle_total : Total Qle.
Proof. intros x y. destruct (Qlt_le_dec x y); [left | right]; lra. Qed.

#[local] Instance Qle_transitive : Transitive Qle.
Proof. intros x y z. apply Qle_trans. Qed.

Lemma sort_values_sorted (s : list Q) : StronglySorted Qle (sort_values s).
Proof. apply StronglySorted_merge_sort; apply _. Qed.




Lemma Qfloor_half (z : Z) : Qfloor (inject_Z z * (1 # 2)) = (z / 2)%Z.
Proof. unfold Qfloor, Qmult, inject_Z. simpl. by rewrite Z.mul_1_r. Qed.

(** The median is the interpolated value at the middle virtual index. *)
Lemma median_interpolate (xs : list Q) (d : Q) :
  xs <> [] ->
  (if Nat.even (length xs)
   then (nth (length xs / 2 - 1) xs d + nth (length xs / 2) xs d) / 2
   else nth (length xs / 2) xs d)
  == interpolate xs d (inject_Z (Z.of_nat (length xs) - 1) * (1 # 2)).
Proof.
  intros Hxs. unfold interpolate. rewrite Qfloor_half.
  assert (0 < length xs)%nat as Hlen by (destruct xs; [done | simpl; lia]).
  destruct (Nat.even (length xs)) eqn:Hpar.
  - apply Nat.even_spec in Hpar as [k Hk].
    assert ((Z.of_nat (length xs) - 1) / 2 = Z.of_nat k - 1)%Z as ->
        by divlia.
    replace (Z.to_nat (Z.of_nat k - 1)) with (k - 1)%nat by lia.
    replace (Z.to_nat (Z.min (Z.of_nat k - 1 + 1) (Z.of_nat (length xs) - 1)))
      with k by lia.
    assert (length xs / 2 = k)%nat as ->
        by (rewrite Hk, Nat.mul_comm; apply Nat.div_mul; lia).
    replace (Z.of_nat (length xs) - 1)%Z with (2 * Z.of_nat k - 1)%Z by lia.
    rewrite <- !Z.add_opp_r, !inject_Z_plus, inject_Z_mult.
    rewrite !inject_Z_opp.
    change (inject_Z 1) with 1. change (inject_Z 2) with 2.
    field.
  - assert (Nat.odd (length xs) = true) as Hodd
        by (by rewrite <- Nat.negb_even, Hpar).
    apply Nat.odd_spec in Hodd as [k Hk].
    assert ((Z.of_nat (length xs) - 1) / 2 = Z.of_nat k)%Z as -> by divlia.
    rewrite Nat2Z.id.
    assert (length xs / 2 = k)%nat as ->
        by (rewrite Hk, (Nat.mul_comm 2 k), Nat.div_add_l by lia;
            simpl; lia).
    replace (Z.of_nat (length xs) - 1)%Z with (2 * Z.of_nat k)%Z by lia.
    rewrite inject_Z_mult. change (inject_Z 2) with 2.
    ring.
Qed.

Lemma series_median_interpolate (s : list Q) (x0 : Q) (xs : list Q) :
  sort_values s = x0 :: xs ->
  exists med,
    series_median s = Some med /\
    med == interpolate (x0 :: xs) x0
             (inject_Z (Z.of_nat (length (x0 :: xs)) - 1) * (1 # 2)).
Proof.
  intros Hsort. unfold series_median. rewrite Hsort.
  pose proof (median_interpolate (x0 :: xs) x0 ltac:(done)) as Hmed.
  destruct (Nat.even (length (x0 :: xs))); by eexists.
Qed.


(** *** Rounding a percentage *)

Lemma round_half_even_percent (y : Q) :
  0 <= y <= 10000 -> (0 <= round_half_even y <= 10000)%Z.
Proof.
  intros [Hy0 Hy1]. unfold round_half_even.
  pose proof (Qfloor_le y) as Hfl. pose proof (Qlt_floor y) as Hfu.
  rewrite inject_Z_plus in Hfu. change (inject_Z 1) with 1 in Hfu.
  assert (0 <= Qfloor y)%Z as Hf0 by exact (Qfloor_resp_le 0 y Hy0).
  assert (Qfloor y <= 10000)%Z as Hf1
      by exact (Qfloor_resp_le y (inject_Z 10000) Hy1).
  assert (Qfloor y = 10000%Z -> y - inject_Z (Qfloor y) < 1 # 2) as Htop.
  { intros Heq. rewrite Heq in *. change (inject_Z 10000) with 10000 in *.
    lra. }
  destruct (Qcompare_spec (y - inject_Z (Qfloor y)) (1 # 2))
    as [Heq | Hlt | Hgt].
  - destruct (Z.even (Qfloor y)); [lia |].
    assert (Qfloor y <> 10000)%Z by (intros H%Htop; lra). lia.
  - lia.
  - assert (Qfloor y <> 10000)%Z by (intros H%Htop; lra). lia.
Qed.

Lemma round2_percent (k n : nat) :
  (k <= n)%nat -> (0 < n)%nat ->
  exists pct,
    round2 (Some (inject_Z (Z.of_nat k) / inject_Z (Z.of_nat n) * 100))
    = Some pct /\ 0 <= pct <= 100.
Proof.
  intros Hkn Hn. eexists. split; [done |].
  set (x := inject_Z (Z.of_nat k) / inject_Z (Z.of_nat n)).
  assert (0 < inject_Z (Z.of_nat n)) as Hnpos.
  { change 0 with (inject_Z 0). rewrite <- Zlt_Qlt. lia. }
  assert (0 <= inject_Z (Z.of_nat k)) as Hk0.
  { change 0 with (inject_Z 0). rewrite <- Zle_Qle. lia. }
  assert (inject_Z (Z.of_nat k) <= inject_Z (Z.of_nat n)) as Hkn'.
  { rewrite <- Zle_Qle. lia. }
  assert (0 <= x <= 1) as Hx.
  { unfold x. split.
    - apply Qle_shift_div_l; [done | lra].
    - apply Qle_shift_div_r; [done | lra]. }
  pose proof (round_half_even_percent (x * 100 * 100) ltac:(lra)) as [Hr0 Hr1].
  rewrite Zle_Qle in Hr0, Hr1.
  change (inject_Z 0) with 0 in Hr0.
  change (inject_Z 10000) with 10000 in Hr1.
  split.
  - apply Qle_shift_div_l; [reflexivity | lra].
  - apply Qle_shift_div_r; [reflexivity | lra].
Qed.

(** ** Claims on the numeric summary *)

(** Claim C6: for a column whose values are all missing, the record has
    count 0 and every other statistic missing; the record is built
    without any exception ([fence_row] is a total function). *)
Theorem fence_row_all_missing (c : string) (col : list float) :
  Forall (fun v => v = None) col ->
  fence_row c col
  = Row.mk c 0 NaN NaN NaN NaN NaN NaN NaN NaN NaN NaN NaN.
Proof.
  intros Hcol. unfold fence_row. by rewrite dropna_all_missing.
Qed.

Lemma fence_row_all_missing_witness :
  fence_row "x" [None; None; None]
  = Row.mk "x" 0 NaN NaN NaN NaN NaN NaN NaN NaN NaN NaN NaN.
Proof.
  apply fence_row_all_missing. repeat constructor.
Defined.



(** A series of one value: every quantile is that value. *)
Lemma quantile_singleton (x q : Q) :
  exists v, quantile [x] q = Some v /\ v == x.
Proof.
  eexists. split; [reflexivity |].
  unfold interpolate. simpl length.
  assert (Qfloor (inject_Z (Z.of_nat 1 - 1) * q) = 0%Z) as ->.
  { rewrite <- (Qfloor_Z 0). apply Qfloor_comp.
    change (inject_Z (Z.of_nat 1 - 1)) with 0. change (inject_Z 0) with 0.
    ring. }
  simpl. ring.
Qed.

(** Claim C10, amended: for a column with exactly one non-missing value,
    a finite one (the rational [x]), the record has count 1 and a missing
    standard deviation, and every other statistic is defined: minimum,
    maximum, quartiles, median and fences are [x], the interquartile range
    and the outlier percentage are 0. *)
Theorem fence_row_single_value (c : string) (col : list float) (x : Q) :
  dropna col = [x] ->
  exists mean q1 med q3 iqr lower upper pct : Q,
    Row.count (fence_row c col) = 1%Z /\
    Row.std (fence_row c col) = None /\
    Row.mean (fence_row c col) = Some mean /\
    Row.min (fence_row c col) = Some x /\
    Row.max (fence_row c col) = Some x /\
    Row.q1 (fence_row c col) = Some q1 /\
    Row.median (fence_row c col) = Some med /\
    Row.q3 (fence_row c col) = Some q3 /\
    Row.iqr (fence_row c col) = Some iqr /\
    Row.lower_fence (fence_row c col) = Some lower /\
    Row.upper_fence (fence_row c col) = Some upper /\
    Row.outlier_pct (fence_row c col) = Some pct /\
    q1 == x /\ med == x /\ q3 == x /\ iqr == 0 /\
    lower == x /\ upper == x /\ pct == 0.
Proof.
  intros Hs.
  destruct (fence_row_nonempty c col) as (q1 & q3 & Hq1 & Hq3 & ->);
    [by rewrite Hs |].
  rewrite Hs in *.
  destruct (quantile_singleton x (25 # 100)) as (q1' & Hq1' & Hx1).
  destruct (quantile_singleton x (75 # 100)) as (q3' & Hq3' & Hx3).
  assert (q1' = q1) as -> by congruence.
  assert (q3' = q3) as -> by congruence.
  set (lower := q1 - (15 # 10) * (q3 - q1)).
  set (upper := q3 + (15 # 10) * (q3 - q1)).
  assert (lower == x) as Hlower by (unfold lower; lra).
  assert (upper == x) as Hupper by (unfold upper; lra).
  assert (length (outlier_rows lower upper col) = 0%nat) as Hrows.
  { rewrite outlier_rows_dropna, Hs, filter_cons_False; [done |].
    intros [Hlt | Hlt]; lra. }
  rewrite Hrows.
  eexists _, q1, x, q3, _, lower, upper, _. simpl.
  repeat split; try done; try lra; reflexivity.
Qed.

Lemma fence_row_single_value_witness :
  exists mean q1 med q3 iqr lower upper pct : Q,
    Row.count (fence_row "x" [None; Some (7 # 2); None]) = 1%Z /\
    Row.std (fence_row "x" [None; Some (7 # 2); None]) = None /\
    Row.mean (fence_row "x" [None; Some (7 # 2); None]) = Some mean /\
    Row.min (fence_row "x" [None; Some (7 # 2); None]) = Some (7 # 2) /\
    Row.max (fence_row "x" [None; Some (7 # 2); None]) = Some (7 # 2) /\
    Row.q1 (fence_row "x" [None; Some (7 # 2); None]) = Some q1 /\
    Row.median (fence_row "x" [None; Some (7 # 2); None]) = Some med /\
    Row.q3 (fence_row "x" [None; Some (7 # 2); None]) = Some q3 /\
    Row.iqr (fence_row "x" [None; Some (7 # 2); None]) = Some iqr /\
    Row.lower_fence (fence_row "x" [None; Some (7 # 2); None])
    = Some lower /\
    Row.upper_fence (fence_row "x" [None; Some (7 # 2); None])
    = Some upper /\
    Row.outlier_pct (fence_row "x" [None; Some (7 # 2); None])
    = Some pct /\
    q1 == 7 # 2 /\ med == 7 # 2 /\ q3 == 7 # 2 /\ iqr == 0 /\
    lower == 7 # 2 /\ upper == 7 # 2 /\ pct == 0.
Proof.
  apply fence_row_single_value. reflexivity.
Defined.

End summary.

(** * The summary in binary64 *)

Section binary64.

Import PrimFloat SpecFloat FloatOps.

Implicit Types (col : list PrimFloat.float) (v lower upper : PrimFloat.float).

(** A comparison with [nan] is false. *)
Lemma ltb_nan_l (x y : PrimFloat.float) :
  is_nan x = true -> (x <? y)%float = false.
Proof.
  intros H. rewrite FloatAxioms.ltb_spec.
  unfold Prim2SF at 1. by rewrite H.
Qed.

Lemma ltb_nan_r (x y : PrimFloat.float) :
  is_nan y = true -> (x <? y)%float = false.
Proof.
  intros H. rewrite FloatAxioms.ltb_spec.
  unfold Prim2SF at 2. rewrite H.
  by destruct (Prim2SF x) as [[] | [] | | []].
Qed.

Lemma outside64_nan lower upper v :
  is_nan v = true -> outside64 lower upper v = false.
Proof.
  intros H. unfold outside64. by rewrite ltb_nan_l, ltb_nan_r.
Qed.

Lemma mask_sum_outlier_mask64 col lower upper :
  mask_sum (Binary64.outlier_mask col lower upper)
  = Z.of_nat (length (List.filter (outside64 lower upper) col)).
Proof.
  unfold Binary64.outlier_mask.
  induction col as [| v col IH]; [done |].
  cbn [fmap list_fmap zip_with mask_sum foldr List.filter].
  fold (mask_sum (zip_with orb ((fun v => v <? lower)%float <$> col)
                               ((fun v => upper <? v)%float <$> col))).
  rewrite IH. unfold outside64 at 2.
  destruct ((v <? lower)%float || (upper <? v)%float);
    simpl length; simpl Z.b2z; lia.
Qed.

Lemma filter_outside64_dropna col lower upper :
  List.filter (outside64 lower upper) (Binary64.dropna col)
  = List.filter (outside64 lower upper) col.
Proof.
  unfold Binary64.dropna.
  induction col as [| v col IH]; [done |].
  cbn [List.filter].
  destruct (is_nan v) eqn:Hnan; cbn [negb List.filter].
  - by rewrite (outside64_nan _ _ _ Hnan).
  - by rewrite IH.
Qed.

Lemma dropna64_nonempty col :
  (exists v, In v col /\ is_nan v = false) ->
  (length (Binary64.dropna col) =? 0)%nat = false.
Proof.
  intros (v & Hin & Hv).
  assert (In v (Binary64.dropna col)) as Hin'.
  { unfold Binary64.dropna. apply filter_In. by rewrite Hv. }
  destruct (Binary64.dropna col); [done | done].
Qed.

(** [round_half_even] returns a nearest integer. *)
Lemma round_half_even_near (x : Q) :
  (Qabs (x - inject_Z (round_half_even x)) <= 1 # 2)%Q.
Proof.
  unfold round_half_even.
  pose proof (Qfloor_le x) as Hfl. pose proof (Qlt_floor x) as Hfu.
  rewrite inject_Z_plus in Hfu. change (inject_Z 1) with 1%Q in Hfu.
  apply Qabs_Qle_condition.
  destruct (Qcompare_spec (x - inject_Z (Qfloor x)) (1 # 2))
    as [Heq | Hlt | Hgt].
  - destruct (Z.even (Qfloor x)).
    + split; lra.
    + rewrite inject_Z_plus. change (inject_Z 1) with 1%Q. split; lra.
  - split; lra.
  - rewrite inject_Z_plus. change (inject_Z 1) with 1%Q. split; lra.
Qed.

Lemma round_half_even_nonneg (x : Q) :
  (0 <= x)%Q -> 0 <= round_half_even x.
Proof.
  intros Hx. unfold round_half_even.
  assert (0 <= Qfloor x) as Hf by exact (Qfloor_resp_le 0 x Hx).
  destruct (x - inject_Z (Qfloor x) ?= 1 # 2)%Q;
    [destruct (Z.even (Qfloor x)) | |]; lia.
Qed.

Lemma magnitude_nonneg (m : positive) (e : Z) :
  (0 <= Binary64.magnitude m e)%Q.
Proof.
  unfold Binary64.magnitude.
  apply Qmult_le_0_compat; [done |].
  by apply Qpower_0_le.
Qed.

(** [Binary64.round2] rounds to two decimals: on a finite nonzero float
    the result is the float nearest to [n / 100] for an integer [n] within
    one half of 100 times the value; any other float is returned as it
    is. *)
Lemma round2_spec (x : PrimFloat.float) :
  match Prim2SF x with
  | S754_finite s m e =>
      exists n : Z,
        0 <= n /\
        (Qabs (Binary64.magnitude m e * 100 - inject_Z n) <= 1 # 2)%Q /\
        Binary64.round2 x = Binary64.nearest_hundredth s n
  | _ => Binary64.round2 x = x
  end.
Proof.
  unfold Binary64.round2.
  destruct (Prim2SF x) as [s | s | | s m e]; try done.
  exists (round_half_even (Binary64.magnitude m e * 100)).
  split; [| split; [apply round_half_even_near | done]].
  apply round_half_even_nonneg.
  pose proof (magnitude_nonneg m e). lra.
Qed.

(** The rounding on some values: a tie goes to the even hundredth (0.125
    and 0.375), 2.675 is below the tie in binary64, a negative value that
    rounds to zero keeps its sign, and a large float, an infinity and
    [nan] are unchanged. *)
Lemma round2_examples :
  Binary64.round2 0.125 = 0x1.eb851eb851eb8p-4%float /\
  Binary64.round2 0.375 = 0x1.851eb851eb852p-2%float /\
  Binary64.round2 0x1.5666666666666p+1 = 0x1.55c28f5c28f5cp+1%float /\
  Binary64.round2 (- 0x1.0624dd2f1a9fcp-10) = (- 0)%float /\
  Binary64.round2 0x1.0f0cf064dd592p+73 = 0x1.0f0cf064dd592p+73%float /\
  Binary64.round2 infinity = infinity /\
  Binary64.round2 nan = nan.
Proof. repeat split; by vm_compute. Qed.

(** Claim C3: for a column with a non-missing value, the outlier
    percentage is the number of rows whose value is strictly below the
    lower fence or strictly above the upper fence, divided by the length
    of the whole column, times 100, rounded to 2 decimals, each step in
    binary64.  A missing row never satisfies either comparison, so the
    counted rows are rows of the non-missing values, but missing rows are
    part of the length.  The rounding is Python's: the result is the
    float nearest to [n / 100] for an integer [n] within one half of 100
    times the unrounded percentage. *)
Theorem outlier_pct_binary64
    (stats : list PrimFloat.float -> Binary64.describe) (c : string) col :
  (exists v, In v col /\ is_nan v = false) ->
  let r := Binary64.fence_row stats c col in
  let lower := Binary64.Row.lower_fence r in
  let upper := Binary64.Row.upper_fence r in
  let k := length (List.filter (outside64 lower upper) col) in
  let pct :=
    (Binary64.of_count (Z.of_nat k)
     / Binary64.of_count (Z.of_nat (length col)) * 100)%float in
  Binary64.Row.outlier_pct r = Binary64.round2 pct /\
  (forall v, is_nan v = true -> outside64 lower upper v = false) /\
  k = length (List.filter (outside64 lower upper) (Binary64.dropna col)) /\
  match Prim2SF pct with
  | S754_finite s m e =>
      exists n : Z,
        0 <= n /\
        (Qabs (Binary64.magnitude m e * 100 - inject_Z n) <= 1 # 2)%Q /\
        Binary64.Row.outlier_pct r = Binary64.nearest_hundredth s n
  | _ => Binary64.Row.outlier_pct r = pct
  end.
Proof.
  intros Hs r lower upper k pct.
  assert (Binary64.Row.outlier_pct r = Binary64.round2 pct) as Hpct.
  { unfold pct, k, lower, upper, r, Binary64.fence_row.
    rewrite (dropna64_nonempty col Hs). cbn.
    by rewrite mask_sum_outlier_mask64. }
  split; [exact Hpct |].
  split; [intros v; apply outside64_nan |].
  split; [unfold k; by rewrite filter_outside64_dropna |].
  rewrite Hpct. apply round2_spec.
Qed.

Lemma outlier_pct_binary64_witness :
  let r := Binary64.fence_row (answering 3.5 3.5 3.5) "x" [nan; 3.5; nan]%float
  in
  let lower := Binary64.Row.lower_fence r in
  let upper := Binary64.Row.upper_fence r in
  let k :=
    length (List.filter (outside64 lower upper) [nan; 3.5; nan]%float) in
  let pct :=
    (Binary64.of_count (Z.of_nat k)
     / Binary64.of_count (Z.of_nat (length [nan; 3.5; nan]%float))
     * 100)%float in
  Binary64.Row.outlier_pct r = Binary64.round2 pct /\
  (forall v, is_nan v = true -> outside64 lower upper v = false) /\
  k = length (List.filter (outside64 lower upper)
                (Binary64.dropna [nan; 3.5; nan]%float)) /\
  match Prim2SF pct with
  | S754_finite s m e =>
      exists n : Z,
        0 <= n /\
        (Qabs (Binary64.magnitude m e * 100 - inject_Z n) <= 1 # 2)%Q /\
        Binary64.Row.outlier_pct r = Binary64.nearest_hundredth s n
  | _ => Binary64.Row.outlier_pct r = pct
  end.
Proof.
  apply outlier_pct_binary64.
  exists 3.5%float. split; [simpl; tauto | reflexivity].
Defined.

(** The rounding of each step shows in the result: 23 outliers in 160
    rows give 14.374999999999998 before rounding, not the tie 14.375, and
    14.37 after. *)
Lemma outlier_pct_23_of_160
    (stats : list PrimFloat.float -> Binary64.describe) :
  let col := (replicate 23 1 ++ replicate 137 0)%float in
  Binary64.d_q1 (stats col) = 0%float ->
  Binary64.d_q3 (stats col) = 0%float ->
  (Binary64.of_count 23 / Binary64.of_count 160 * 100)%float
  = 0x1.cbfffffffffffp+3%float /\
  Binary64.Row.outlier_pct (Binary64.fence_row stats "x" col)
  = 0x1.cbd70a3d70a3dp+3%float.
Proof.
  intros col Hq1 Hq3. split; [by vm_compute |].
  unfold Binary64.fence_row.
  change (Binary64.dropna col) with col.
  change (length col =? 0)%nat with false.
  cbv iota. rewrite Hq1, Hq3. by vm_compute.
Qed.


(** Claim C10, as stated, fails when the single non-missing value is an
    infinity: the count is 1 but the interquartile range and both fences
    are [nan]. *)
Lemma fence_row_single_infinite_value :
  Forall (fun ab : PrimFloat.float * PrimFloat.float =>
            let r :=
              Binary64.fence_row (answering ab.1 ab.2 infinity) "x"
                [nan; infinity; nan] in
            Binary64.Row.count r = 1 /\
            is_nan (Binary64.Row.std r) = true /\
            is_nan (Binary64.Row.iqr r) = true /\
            is_nan (Binary64.Row.lower_fence r) = true /\
            is_nan (Binary64.Row.upper_fence r) = true)
         infinite_quartiles.
Proof. repeat constructor. Qed.

End binary64.

(** * Further properties of the holiday functions *)

Section calendar_edges.

Local Open Scope Z_scope.

(** Every weekday falls 4 or 5 times in a month. *)
Lemma length_occurrences (y m w : Z) :
  1 <= m <= 12 -> 0 <= w < 7 ->
  (4 <= length (occurrences y m w) <= 5)%nat.
Proof.
  intros Hm Hw.
  pose proof (days_in_month_bounds y m Hm) as Hdim.
  pose proof (first_occurrence_range y m w) as Hf.
  rewrite occurrences_closed, length_fmap, length_seqZ by done.
  split; apply Nat2Z.inj_le; rewrite Z2Nat.id by mod7; mod7.
Qed.

(** An index below 1 is not rejected: [range(n - 1)] is empty and the
    first occurrence is returned, as for [n = 1]. *)
Theorem nth_weekday_of_month_nonpositive (y m w n : Z) :
  1 <= y <= 9999 -> 1 <= m <= 12 -> 0 <= w <= 6 -> n <= 1 ->
  nth_weekday_of_month y m w n
  = Return (Date.mk y m (first_occurrence y m w)) /\
  nth_weekday_of_month y m w n = nth_weekday_of_month y m w 1 /\
  occurrences y m w !! 0%nat = Some (first_occurrence y m w).
Proof.
  intros Hy Hm Hw Hn.
  pose proof (days_in_month_bounds y m Hm) as Hdim.
  pose proof (first_occurrence_range y m w) as Hf.
  assert (forall k, k <= 1 ->
            nth_weekday_of_month y m w k
            = Return (Date.mk y m (first_occurrence y m w))) as Hfirst.
  { intros k Hk. rewrite nth_weekday_of_month_eq, Z.max_l by lia.
    rewrite Z.mul_0_r, Z.add_0_r.
    by destruct (Z.leb_spec (first_occurrence y m w) (days_in_month y m));
      [| lia]. }
  split; [by apply Hfirst |]. split; [by rewrite !Hfirst by lia |].
  rewrite occurrences_closed, list_lookup_fmap, lookup_seqZ_lt by mod7.
  simpl. f_equal. lia.
Qed.

Lemma nth_weekday_of_month_nonpositive_witness :
  nth_weekday_of_month 2024 9 0 (-3)
  = Return (Date.mk 2024 9 (first_occurrence 2024 9 0)) /\
  nth_weekday_of_month 2024 9 0 (-3) = nth_weekday_of_month 2024 9 0 1 /\
  occurrences 2024 9 0 !! 0%nat = Some (first_occurrence 2024 9 0).
Proof.
  apply nth_weekday_of_month_nonpositive; lia.
Defined.

(** The first four occurrences always exist and a sixth never does: for
    [n] from 1 to 4 a date is returned, for [n >= 6] [ValueError] is
    raised, and for [n = 5] it depends on the month. *)
Theorem nth_weekday_of_month_index_range (y m w n : Z) :
  1 <= y <= 9999 -> 1 <= m <= 12 -> 0 <= w <= 6 ->
  (1 <= n <= 4 -> exists d, nth_weekday_of_month y m w n = Return d) /\
  (n = 5 ->
   (nth_weekday_of_month y m w n = Raise ValueError <->
    days_in_month y m < first_occurrence y m w + 28) /\
   ((exists d, nth_weekday_of_month y m w n = Return d) <->
    first_occurrence y m w + 28 <= days_in_month y m)) /\
  (6 <= n -> nth_weekday_of_month y m w n = Raise ValueError).
Proof.
  intros Hy Hm Hw.
  pose proof (days_in_month_bounds y m Hm) as Hdim.
  pose proof (first_occurrence_range y m w) as Hf.
  split; [| split].
  - intros Hn. rewrite nth_weekday_of_month_upto4 by lia. by eexists.
  - intros ->. rewrite nth_weekday_of_month_eq by lia.
    change (7 * Z.max 0 (5 - 1)) with 28.
    destruct (Z.leb_spec (first_occurrence y m w + 28) (days_in_month y m)).
    + split; split; try done; try lia. by eexists.
    + split; split; try done; try lia. by intros [d [=]].
  - intros Hn. rewrite nth_weekday_of_month_eq by lia.
    by destruct (Z.leb_spec (first_occurrence y m w + 7 * Z.max 0 (n - 1))
                            (days_in_month y m)); [lia |].
Qed.

Lemma nth_weekday_of_month_index_range_witness :
  (1 <= 5 <= 4 -> exists d, nth_weekday_of_month 2024 2 3 5 = Return d) /\
  (5 = 5 ->
   (nth_weekday_of_month 2024 2 3 5 = Raise ValueError <->
    days_in_month 2024 2 < first_occurrence 2024 2 3 + 28) /\
   ((exists d, nth_weekday_of_month 2024 2 3 5 = Return d) <->
    first_occurrence 2024 2 3 + 28 <= days_in_month 2024 2)) /\
  (6 <= 5 -> nth_weekday_of_month 2024 2 3 5 = Raise ValueError).
Proof.
  apply nth_weekday_of_month_index_range; lia.
Defined.

(** A target that is no weekday number never matches: the forward search
    runs off the end of the month and [date] raises. *)
Lemma seek_forward_no_match (fuel : nat) (w y m d : Z) :
  ~ 0 <= w < 7 ->
  valid_fields y m d = true ->
  (Z.to_nat (days_in_month y m + 1 - d) <= fuel)%nat ->
  seek_forward fuel w (Date.mk y m d) = Raise ValueError.
Proof.
  intros Hw. revert d. induction fuel as [| fuel IH]; intros d Hd Hfuel.
  - apply valid_fields_spec in Hd. lia.
  - pose proof (weekday_range (Date.mk y m d)) as Hr.
    cbn [seek_forward].
    destruct (Z.eqb_spec (weekday (Date.mk y m d)) w); [lia |]. simpl.
    destruct (valid_fields y m (d + 1)) eqn:Hv.
    + rewrite new_valid, bind_Return by done. apply IH; [done | lia].
    + by rewrite new_step_invalid.
Qed.

(** With a weekday outside 0..6, [nth_weekday_of_month] raises
    [ValueError], whatever the index. *)
Theorem nth_weekday_of_month_bad_weekday (y m w n : Z) :
  1 <= y <= 9999 -> 1 <= m <= 12 -> w < 0 \/ 6 < w ->
  nth_weekday_of_month y m w n = Raise ValueError.
Proof.
  intros Hy Hm Hw.
  pose proof (days_in_month_bounds y m Hm) as Hdim.
  unfold nth_weekday_of_month, forward_budget.
  rewrite new_valid, bind_Return by (apply valid_fields_spec; lia).
  rewrite seek_forward_no_match;
    [done | lia | apply valid_fields_spec; lia | lia].
Qed.

Lemma nth_weekday_of_month_bad_weekday_witness :
  nth_weekday_of_month 2024 1 7 1 = Raise ValueError.
Proof.
  apply nth_weekday_of_month_bad_weekday; lia.
Defined.

(** With a year outside 1..9999 or a month outside 1..12,
    [nth_weekday_of_month] raises at [date(y, m, 1)]: [ValueError] when
    the year and the month both fit a C [int], [OverflowError] when one of
    them does not. *)
Theorem nth_weekday_of_month_bad_month (y m w n : Z) :
  ~ (1 <= y <= 9999 /\ 1 <= m <= 12) ->
  (C_INT_MIN <= y <= C_INT_MAX -> C_INT_MIN <= m <= C_INT_MAX ->
   nth_weekday_of_month y m w n = Raise ValueError) /\
  (~ (C_INT_MIN <= y <= C_INT_MAX) \/ ~ (C_INT_MIN <= m <= C_INT_MAX) ->
   nth_weekday_of_month y m w n = Raise OverflowError).
Proof.
  intros Hbad. unfold nth_weekday_of_month. split.
  - intros Hy Hm. rewrite new_invalid; [done | done | done | c_int |].
    apply not_true_is_false. rewrite valid_fields_spec. lia.
  - intros Hbig. rewrite new_overflow; [done | tauto].
Qed.

Lemma nth_weekday_of_month_bad_month_witness :
  (C_INT_MIN <= 2024 <= C_INT_MAX -> C_INT_MIN <= 13 <= C_INT_MAX ->
   nth_weekday_of_month 2024 13 0 1 = Raise ValueError) /\
  (~ (C_INT_MIN <= 2024 <= C_INT_MAX) \/ ~ (C_INT_MIN <= 13 <= C_INT_MAX) ->
   nth_weekday_of_month 2024 13 0 1 = Raise OverflowError).
Proof.
  apply nth_weekday_of_month_bad_month. lia.
Defined.

(** A target that is no weekday number never matches going backward
    either: the search walks back to January 1st of year 1 and the next
    subtraction overflows. *)
Lemma seek_backward_no_match (fuel : nat) (w : Z) (d : date) :
  ~ 0 <= w < 7 ->
  valid d ->
  (Z.to_nat (toordinal d) <= fuel)%nat ->
  seek_backward fuel w d = Raise OverflowError.
Proof.
  intros Hw. revert d. induction fuel as [| fuel IH]; intros d Hd Hfuel.
  - pose proof (toordinal_pos d Hd). lia.
  - pose proof (weekday_range d) as Hr.
    cbn [seek_backward].
    destruct (Z.eqb_spec (weekday d) w); [lia |]. simpl.
    pose proof (sub_one_day_spec d Hd) as Hsub.
    destruct (sub_one_day d) as [d' | e |]; [| | done].
    + destruct Hsub as [Hd' Hord]. rewrite bind_Return.
      apply IH; [done | lia].
    + by destruct Hsub as [-> _].
Qed.

(** With a weekday outside 0..6, [last_weekday_of_month] raises
    [OverflowError] (not [ValueError]). *)
Theorem last_weekday_of_month_bad_weekday (y m w : Z) :
  1 <= y <= 9999 -> 1 <= m <= 12 -> w < 0 \/ 6 < w ->
  last_weekday_of_month y m w = Raise OverflowError.
Proof.
  intros Hy Hm Hw.
  pose proof (days_in_month_bounds y m Hm) as Hdim.
  unfold last_weekday_of_month.
  rewrite last_day_of_month, bind_Return by done.
  apply seek_backward_no_match; [lia | | done].
  apply valid_fields_spec. simpl. lia.
Qed.

Lemma last_weekday_of_month_bad_weekday_witness :
  last_weekday_of_month 1 1 7 = Raise OverflowError.
Proof.
  apply last_weekday_of_month_bad_weekday; lia.
Defined.

(** Month 0 is not rejected by [last_weekday_of_month]: the first day of
    "month 0 + 1" is January 1st, one day earlier is December 31st of the
    year before, and the answer is that of December of the previous year;
    in year 1 there is no day before and the subtraction overflows. *)
Theorem last_weekday_of_month_month_0 (y w : Z) :
  1 <= y <= 9999 ->
  last_weekday_of_month y 0 w
  = if y =? 1 then Raise OverflowError
    else last_weekday_of_month (y - 1) 12 w.
Proof.
  intros Hy. unfold last_weekday_of_month. simpl.
  rewrite new_valid, bind_Return
    by (apply valid_fields_spec; unfold days_in_month; simpl; lia).
  unfold sub_one_day, MINYEAR. simpl.
  destruct (Z.eqb_spec y 1) as [-> | Hne]; [done |].
  destruct (Z.ltb_spec 1 y); [| lia].
  by rewrite new_valid
    by (apply valid_fields_spec; unfold days_in_month; simpl; lia).
Qed.

Lemma last_weekday_of_month_month_0_witness :
  last_weekday_of_month 2024 0 0
  = if 2024 =? 1 then Raise OverflowError
    else last_weekday_of_month (2024 - 1) 12 0.
Proof.
  apply last_weekday_of_month_month_0. lia.
Defined.

(** Any other month outside 1..12, and any year outside 1..9999, makes
    [last_weekday_of_month] raise at its first [date] call ([date(y, 12, 31)]
    in December, [date(y, m + 1, 1)] otherwise): [ValueError] when [y] and
    [m + 1] both fit a C [int], [OverflowError] when one of them does
    not. *)
Theorem last_weekday_of_month_bad_month (y m w : Z) :
  ~ 1 <= y <= 9999 \/ m < 0 \/ 12 < m ->
  (C_INT_MIN <= y <= C_INT_MAX -> C_INT_MIN <= m + 1 <= C_INT_MAX ->
   last_weekday_of_month y m w = Raise ValueError) /\
  (~ (C_INT_MIN <= y <= C_INT_MAX) \/ ~ (C_INT_MIN <= m + 1 <= C_INT_MAX) ->
   last_weekday_of_month y m w = Raise OverflowError).
Proof.
  intros Hbad. unfold last_weekday_of_month. split.
  - intros Hy Hm.
    destruct (Z.eqb_spec m 12) as [-> | Hne].
    + rewrite new_invalid; [done | done | c_int | c_int |].
      apply not_true_is_false. rewrite valid_fields_spec. lia.
    + rewrite new_invalid; [done | done | done | c_int |].
      apply not_true_is_false. rewrite valid_fields_spec. lia.
  - intros Hbig.
    destruct (Z.eqb_spec m 12) as [-> | Hne].
    + rewrite new_overflow; [done |].
      destruct Hbig as [Hbig | Hbig]; [by left | exfalso; apply Hbig; c_int].
    + rewrite new_overflow; [done | tauto].
Qed.

Lemma last_weekday_of_month_bad_month_witness :
  (C_INT_MIN <= 2024 <= C_INT_MAX -> C_INT_MIN <= 13 + 1 <= C_INT_MAX ->
   last_weekday_of_month 2024 13 0 = Raise ValueError) /\
  (~ (C_INT_MIN <= 2024 <= C_INT_MAX) \/
   ~ (C_INT_MIN <= 13 + 1 <= C_INT_MAX) ->
   last_weekday_of_month 2024 13 0 = Raise OverflowError).
Proof.
  apply last_weekday_of_month_bad_month. lia.
Defined.

(** The weekday of the date found by the backward search. *)
Lemma last_weekday_of_month_weekday (y m w : Z) :
  1 <= m <= 12 -> 0 <= w < 7 ->
  weekday (Date.mk y m
             (days_in_month y m
              - (weekday (Date.mk y m (days_in_month y m)) - w) mod 7))
  = w.
Proof.
  intros Hm Hw.
  set (off := (weekday (Date.mk y m (days_in_month y m)) - w) mod 7).
  pose proof (weekday_range (Date.mk y m (days_in_month y m))) as Hr.
  pose proof (weekday_range (Date.mk y m (days_in_month y m - off))) as Hr'.
  pose proof (weekday_shift y m (days_in_month y m - off) off) as Hs.
  replace (days_in_month y m - off + off) with (days_in_month y m)
    in Hs by lia.
  unfold off in *. mod7.
Qed.

(** The two rules agree: the last occurrence of a weekday in a month is
    its [n]th occurrence for [n] the number of occurrences, which is 4 or
    5. *)
Theorem last_weekday_is_nth_weekday (y m w : Z) :
  1 <= y <= 9999 -> 1 <= m <= 12 -> 0 <= w <= 6 ->
  last_weekday_of_month y m w
  = nth_weekday_of_month y m w (Z.of_nat (length (occurrences y m w))) /\
  (4 <= length (occurrences y m w) <= 5)%nat /\
  exists d, last_weekday_of_month y m w = Return (Date.mk y m d) /\
            last (occurrences y m w) = Some d.
Proof.
  intros Hy Hm Hw.
  pose proof (days_in_month_bounds y m Hm) as Hdim.
  pose proof (first_occurrence_range y m w) as Hf.
  pose proof (length_occurrences y m w Hm ltac:(lia)) as Hlen.
  pose proof (weekday_range (Date.mk y m 1)) as Hr1.
  pose proof (weekday_shift y m 1 (days_in_month y m - 1)) as Hs.
  replace (1 + (days_in_month y m - 1)) with (days_in_month y m)
    in Hs by lia.
  assert (days_in_month y m
          - (weekday (Date.mk y m (days_in_month y m)) - w) mod 7
          = first_occurrence y m w
            + 7 * ((days_in_month y m - first_occurrence y m w) / 7))
    as Hlast.
  { rewrite Hs. unfold first_occurrence in *. mod7. }
  assert (Z.of_nat (length (occurrences y m w))
          = (days_in_month y m - first_occurrence y m w) / 7 + 1) as Hcnt.
  { rewrite occurrences_closed, length_fmap, length_seqZ by lia.
    rewrite Z2Nat.id by mod7. done. }
  rewrite last_weekday_of_month_eq, Hlast by lia.
  split; [| split; [done |]].
  - rewrite nth_weekday_of_month_lookup by lia.
    rewrite Hcnt.
    replace ((days_in_month y m - first_occurrence y m w) / 7 + 1 - 1)
      with ((days_in_month y m - first_occurrence y m w) / 7) by lia.
    rewrite occurrences_closed, list_lookup_fmap, lookup_seqZ_lt by mod7.
    simpl. rewrite Z2Nat.id by mod7. do 3 f_equal.
  - eexists. split; [done |].
    rewrite last_lookup.
    replace (Init.Nat.pred (length (occurrences y m w)))
      with (Z.to_nat ((days_in_month y m - first_occurrence y m w) / 7))
      by lia.
    rewrite occurrences_closed, list_lookup_fmap, lookup_seqZ_lt by mod7.
    simpl. rewrite Z2Nat.id by mod7. do 2 f_equal.
Qed.

Lemma last_weekday_is_nth_weekday_witness :
  last_weekday_of_month 2024 5 0
  = nth_weekday_of_month 2024 5 0
      (Z.of_nat (length (occurrences 2024 5 0))) /\
  (4 <= length (occurrences 2024 5 0) <= 5)%nat /\
  exists d, last_weekday_of_month 2024 5 0 = Return (Date.mk 2024 5 d) /\
            last (occurrences 2024 5 0) = Some d.
Proof.
  apply last_weekday_is_nth_weekday; lia.
Defined.

(** For every year of the calendar the rule-based holidays fall on their
    weekday and in their week: Martin Luther King Day and Presidents Day
    on a Monday from the 15th to the 21st, Memorial Day on a Monday from
    May 25th to 31st, Labor Day on a Monday from September 1st to 7th,
    Columbus Day on a Monday from October 8th to 14th, Thanksgiving on a
    Thursday from November 22nd to 28th. *)
Lemma holiday_rule_dates (y : Z) :
  1 <= y <= 9999 ->
  exists mlk pres mem lab col thx : Z,
    nth_weekday_of_month y 1 0 3 = Return (Date.mk y 1 mlk) /\
    nth_weekday_of_month y 2 0 3 = Return (Date.mk y 2 pres) /\
    last_weekday_of_month y 5 0 = Return (Date.mk y 5 mem) /\
    nth_weekday_of_month y 9 0 1 = Return (Date.mk y 9 lab) /\
    nth_weekday_of_month y 10 0 2 = Return (Date.mk y 10 col) /\
    nth_weekday_of_month y 11 3 4 = Return (Date.mk y 11 thx) /\
    15 <= mlk <= 21 /\ weekday (Date.mk y 1 mlk) = 0 /\
    15 <= pres <= 21 /\ weekday (Date.mk y 2 pres) = 0 /\
    25 <= mem <= 31 /\ weekday (Date.mk y 5 mem) = 0 /\
    1 <= lab <= 7 /\ weekday (Date.mk y 9 lab) = 0 /\
    8 <= col <= 14 /\ weekday (Date.mk y 10 col) = 0 /\
    22 <= thx <= 28 /\ weekday (Date.mk y 11 thx) = 3.
Proof.
  intros Hy.
  pose proof (first_occurrence_range y 1 0).
  pose proof (first_occurrence_range y 2 0).
  pose proof (first_occurrence_range y 9 0).
  pose proof (first_occurrence_range y 10 0).
  pose proof (first_occurrence_range y 11 3).
  pose proof (weekday_range (Date.mk y 5 (days_in_month y 5))).
  assert (days_in_month y 5 = 31) as Hmay by done.
  eexists _, _, _, _, _, _.
  rewrite !nth_weekday_of_month_upto4, last_weekday_of_month_eq by lia.
  do 6 (split; [reflexivity |]).
  rewrite !weekday_weeks_after_first by lia.
  rewrite last_weekday_of_month_weekday by lia.
  repeat split; try done; mod7.
Qed.

End calendar_edges.

(** * Further properties of the engineered columns *)

Section engineered.

Local Open Scope Z_scope.

Lemma collect_years_fold (l : list date) (acc : list Z) :
  NoDup acc ->
  NoDup (foldl (fun years dval =>
                  if bool_decide (year dval ∈ years) then years
                  else years ++ [year dval]) acc l) /\
  forall y,
    y ∈ foldl (fun years dval =>
                 if bool_decide (year dval ∈ years) then years
                 else years ++ [year dval]) acc l <->
    y ∈ acc \/ exists d, d ∈ l /\ year d = y.
Proof.
  revert acc. induction l as [| d l IH]; intros acc Hacc; simpl.
  - split; [done |]. intros y. split; [by left |].
    intros [Hy | (d & Hd & _)]; [done | by apply elem_of_nil in Hd].
  - case_bool_decide as Hin.
    + destruct (IH acc Hacc) as [Hnd Hmem]. split; [done |].
      intros y. rewrite Hmem. split.
      * intros [Hy | (d' & Hd' & <-)]; [by left |].
        right. exists d'. split; [by right | done].
      * intros [Hy | (d' & Hd' & <-)]; [by left |].
        apply elem_of_cons in Hd' as [-> | Hd']; [by left |].
        right. by exists d'.
    + assert (NoDup (acc ++ [year d])) as Hacc'.
      { apply NoDup_app. split; [done |]. split; [| apply NoDup_singleton].
        intros y Hy Hy'. apply list_elem_of_singleton in Hy' as ->. done. }
      destruct (IH _ Hacc') as [Hnd Hmem]. split; [done |].
      intros y. rewrite Hmem, elem_of_app, list_elem_of_singleton. split.
      * intros [[Hy | ->] | (d' & Hd' & <-)].
        -- by left.
        -- right. exists d. split; [left | done].
        -- right. exists d'. split; [by right | done].
      * intros [Hy | (d' & Hd' & <-)]; [by left; left |].
        apply elem_of_cons in Hd' as [-> | Hd']; [by left; right |].
        right. by exists d'.
Qed.

Lemma sorted_years_elem (col : date_column) (y : Z) :
  y ∈ sorted_years col <-> exists d, Some d ∈ col /\ year d = y.
Proof.
  unfold sorted_years, collect_years.
  destruct (collect_years_fold (omap id col) [] (NoDup_nil_2 (A:=Z)))
    as [_ Hmem].
  rewrite merge_sort_Permutation, Hmem. split.
  - intros [Hy | (d & Hd & <-)]; [by apply elem_of_nil in Hy |].
    exists d. split; [| done].
    apply list_elem_of_omap in Hd as (o & Ho & Hid). by simplify_eq/=.
  - intros (d & Hd & <-). right. exists d. split; [| done].
    apply list_elem_of_omap. by exists (Some d).
Qed.

(** [years], once sorted, lists in increasing order and without
    repetition exactly the years of the non-missing dates. *)
Theorem sorted_years_spec (col : date_column) :
  Sorted Z.le (sorted_years col) /\
  NoDup (sorted_years col) /\
  forall y, y ∈ sorted_years col <-> exists d, Some d ∈ col /\ year d = y.
Proof.
  split; [apply Sorted_merge_sort; apply _ |].
  split; [| apply sorted_years_elem].
  unfold sorted_years, collect_years.
  destruct (collect_years_fold (omap id col) [] (NoDup_nil_2 (A:=Z)))
    as [Hnd _].
  by rewrite merge_sort_Permutation.
Qed.

(** The entries written by the calendar loop. *)
Lemma build_calendar_lookup (years : list Z) (cal cal' : gmap Z (gset date)) :
  build_calendar years cal = Return cal' ->
  forall y hol,
    cal' !! y = Some hol <->
    (y ∈ years /\ build_us_holidays_for_year y = Return hol) \/
    ((y ∉ years) /\ cal !! y = Some hol).
Proof.
  revert cal. induction years as [| y0 years IH]; intros cal Hbuild y hol.
  - simpl in Hbuild. injection Hbuild as <-. split.
    + intros Hy. right. split; [apply not_elem_of_nil | done].
    + intros [[Hy _] | [_ Hy]]; [| done]. by apply elem_of_nil in Hy.
  - simpl in Hbuild.
    destruct (build_us_holidays_for_year y0) as [hol0 | e |] eqn:Hhol0;
      [| done | done].
    rewrite bind_Return in Hbuild.
    rewrite (IH _ Hbuild), elem_of_cons.
    destruct (decide (y = y0)) as [-> | Hne].
    + rewrite lookup_insert_eq, Hhol0. split.
      * intros [[Hy Heq] | [Hy Heq]]; left; split; auto; congruence.
      * intros [[_ Heq] | [Hy _]]; [| tauto].
        destruct (decide (y0 ∈ years)) as [Hin | Hnin];
          [left | right]; split; congruence.
    + rewrite lookup_insert_ne by done. tauto.
Qed.

Lemma holiday_calendar_lookup (col : date_column) (cal : gmap Z (gset date)) :
  holiday_calendar col = Return cal ->
  forall y hol,
    cal !! y = Some hol <->
    (exists d, Some d ∈ col /\ year d = y) /\
    build_us_holidays_for_year y = Return hol.
Proof.
  intros Hcal y hol.
  rewrite (build_calendar_lookup _ _ _ Hcal), lookup_empty.
  rewrite sorted_years_elem.
  split; [by intros [? | [_ ?]] | by left].
Qed.

(** With timestamps that are calendar dates, [holiday_calendar] is built
    without an exception; its keys are exactly the years of the
    non-missing dates and the entry of a year is the set returned by
    [build_us_holidays_for_year] for it. *)
Theorem holiday_calendar_spec (col : date_column) :
  Forall (fun c => forall d, c = Some d -> valid d) col ->
  exists cal,
    holiday_calendar col = Return cal /\
    forall y hol,
      cal !! y = Some hol <->
      (exists d, Some d ∈ col /\ year d = y) /\
      build_us_holidays_for_year y = Return hol.
Proof.
  intros Hcol.
  destruct (holiday_calendar_returns col Hcol) as [cal Hcal].
  exists cal. split; [done |]. by apply holiday_calendar_lookup.
Qed.

Lemma holiday_calendar_spec_witness :
  exists cal,
    holiday_calendar [Some (Date.mk 2024 7 4); None; Some (Date.mk 2023 1 2)]
    = Return cal /\
    forall y hol,
      cal !! y = Some hol <->
      (exists d,
          Some d ∈ [Some (Date.mk 2024 7 4); None; Some (Date.mk 2023 1 2)]
          /\ year d = y) /\
      build_us_holidays_for_year y = Return hol.
Proof.
  apply holiday_calendar_spec.
  repeat constructor; intros d [= <-]; reflexivity.
Defined.

Lemma is_holiday_row (col : date_column) (i : nat) (d : date) :
  Forall (fun c => forall d, c = Some d -> valid d) col ->
  col !! i = Some (Some d) ->
  exists hvals hol,
    is_holiday_vals col = Return hvals /\
    length hvals = length col /\
    build_us_holidays_for_year (year d) = Return hol /\
    hvals !! i = Some (Some (bool_decide (d ∈ hol))).
Proof.
  intros Hcol Hi.
  destruct (holiday_calendar_returns col Hcol) as [cal Hcal].
  pose proof (holiday_calendar_lookup col cal Hcal) as Hlookup.
  assert (valid d) as Hd.
  { rewrite Forall_forall in Hcol. apply (Hcol (Some d)); [| done].
    by apply list_elem_of_lookup_2 in Hi. }
  apply valid_fields_spec in Hd.
  assert (exists hol, build_us_holidays_for_year (year d) = Return hol)
    as [hol Hhol].
  { destruct (build_us_holidays_for_year_eq (year d) ltac:(lia))
      as (? & ? & ? & ? & ? & ? & _ & _ & _ & _ & _ & _
          & _ & _ & _ & _ & _ & _ & Hhol).
    by eexists. }
  exists (is_holiday_val cal <$> col), hol. unfold is_holiday_vals.
  rewrite Hcal, bind_Return.
  split; [done |]. split; [by rewrite length_fmap |].
  split; [exact Hhol |].
  rewrite list_lookup_fmap, Hi. simpl.
  assert (cal !! year d = Some hol) as ->; [| done].
  apply Hlookup. split; [| exact Hhol].
  exists d. split; [| done]. by apply list_elem_of_lookup_2 in Hi.
Qed.

(** [is_weekend] has one boolean per row; at a row with a date it is true
    exactly on Saturdays and Sundays. *)
Theorem is_weekend_row (col : date_column) :
  length (is_weekend col) = length col /\
  forall i d,
    col !! i = Some (Some d) ->
    is_weekend col !! i
    = Some (bool_decide (weekday d = 5 \/ weekday d = 6)).
Proof.
  unfold is_weekend, series_ge, dt_weekday.
  split; [by rewrite !length_fmap |].
  intros i d Hi. rewrite !list_lookup_fmap, Hi. simpl. f_equal.
  pose proof (weekday_range d) as Hr.
  destruct (Z.leb_spec 5 (weekday d));
    [rewrite bool_decide_eq_true_2 | rewrite bool_decide_eq_false_2];
    try done; lia.
Qed.

(** Two days of the same week of a month with the same weekday are the
    same day. *)
Lemma same_weekday_same_day (y m d1 d2 : Z) :
  weekday (Date.mk y m d1) = weekday (Date.mk y m d2) ->
  -7 < d1 - d2 < 7 -> d1 = d2.
Proof.
  intros Hwd Hclose.
  pose proof (weekday_shift y m d2 (d1 - d2)) as Hs.
  replace (d2 + (d1 - d2)) with d1 in Hs by lia.
  pose proof (weekday_range (Date.mk y m d2)).
  rewrite Hwd in Hs. mod7.
Qed.

Lemma holiday_set_rule (d : date) (hol : gset date) :
  valid d ->
  build_us_holidays_for_year (year d) = Return hol ->
  d ∈ hol <-> us_holiday_rule d.
Proof.
  intros Hd Hhol. apply valid_fields_spec in Hd.
  destruct d as [y m dd]. simpl in *.
  destruct (holiday_rule_dates y ltac:(lia))
    as (mlk & pres & mem & lab & col & thx & Hmlk & Hpres & Hmem & Hlab
        & Hcol & Hthx & Rmlk & Wmlk & Rpres & Wpres & Rmem & Wmem
        & Rlab & Wlab & Rcol & Wcol & Rthx & Wthx).
  unfold build_us_holidays_for_year in Hhol.
  rewrite Hmlk, Hpres, Hmem, Hlab, Hcol, Hthx in Hhol.
  rewrite !new_valid in Hhol
    by (apply valid_fields_spec; unfold days_in_month; simpl; lia).
  rewrite !bind_Return in Hhol. injection Hhol as <-.
  unfold set_add, us_holiday_rule. simpl.
  rewrite !elem_of_union, !elem_of_singleton, elem_of_empty.
  split.
  - intros [[= -> ->] | [[= -> ->] | [[= -> ->] | [[= -> ->] | [[= -> ->]
      | [[= -> ->] | [[= -> ->] | [[= -> ->] | [[= -> ->] | [[= -> ->]
      | []]]]]]]]]]]; tauto.
  - intros [[-> ->] | [[-> ->] | [[-> ->] | [[-> ->] | [(-> & Hw & Hr)
      | [(-> & Hw & Hr) | [(-> & Hw & Hr) | [(-> & Hw & Hr)
      | [(-> & Hw & Hr) | (-> & Hw & Hr)]]]]]]]]]; try tauto.
    + assert (dd = mlk) as ->
          by (apply (same_weekday_same_day y 1); [congruence | lia]).
      tauto.
    + assert (dd = pres) as ->
          by (apply (same_weekday_same_day y 2); [congruence | lia]).
      tauto.
    + assert (dd = mem) as ->
          by (apply (same_weekday_same_day y 5); [congruence | lia]).
      tauto.
    + assert (dd = lab) as ->
          by (apply (same_weekday_same_day y 9); [congruence | lia]).
      tauto.
    + assert (dd = col) as ->
          by (apply (same_weekday_same_day y 10); [congruence | lia]).
      tauto.
    + assert (dd = thx) as ->
          by (apply (same_weekday_same_day y 11); [congruence | lia]).
      tauto.
Qed.

(** The set built for a year holds exactly the dates of that year that
    satisfy one of the ten rules: a fixed date (whatever its weekday, no
    shift to a working day), or the weekday and week of a floating
    holiday. *)
Theorem build_us_holidays_for_year_rule (d : date) :
  valid d ->
  exists hol,
    build_us_holidays_for_year (year d) = Return hol /\
    (d ∈ hol <-> us_holiday_rule d).
Proof.
  intros Hd. pose proof Hd as Hfields. apply valid_fields_spec in Hfields.
  destruct (build_us_holidays_for_year_eq (year d) ltac:(lia))
    as (? & ? & ? & ? & ? & ? & _ & _ & _ & _ & _ & _
        & _ & _ & _ & _ & _ & _ & Hhol).
  eexists. split; [exact Hhol |]. by apply holiday_set_rule.
Qed.

Lemma build_us_holidays_for_year_rule_witness :
  exists hol,
    build_us_holidays_for_year (year (Date.mk 2026 7 4)) = Return hol /\
    (Date.mk 2026 7 4 ∈ hol <-> us_holiday_rule (Date.mk 2026 7 4)).
Proof.
  apply build_us_holidays_for_year_rule. reflexivity.
Defined.

(** At a row with a date, [is_holiday] is [True] exactly when the date
    satisfies one of the ten rules. *)
Theorem is_holiday_row_rule (col : date_column) (i : nat) (d : date) :
  Forall (fun c => forall d, c = Some d -> valid d) col ->
  col !! i = Some (Some d) ->
  exists hvals,
    is_holiday_vals col = Return hvals /\
    hvals !! i = Some (Some (bool_decide (us_holiday_rule d))).
Proof.
  intros Hcol Hi.
  destruct (is_holiday_row col i d Hcol Hi)
    as (hvals & hol & Hvals & _ & Hhol & Hrow).
  assert (valid d) as Hd.
  { rewrite Forall_forall in Hcol. apply (Hcol (Some d)); [| done].
    by apply list_elem_of_lookup_2 in Hi. }
  pose proof (holiday_set_rule d hol Hd Hhol) as Hrule.
  exists hvals. split; [done |]. rewrite Hrow. do 2 f_equal.
  by apply bool_decide_ext.
Qed.

Lemma is_holiday_row_rule_witness :
  exists hvals,
    is_holiday_vals [None; Some (Date.mk 2026 7 4)] = Return hvals /\
    hvals !! 1%nat
    = Some (Some (bool_decide (us_holiday_rule (Date.mk 2026 7 4)))).
Proof.
  apply is_holiday_row_rule; [| reflexivity].
  repeat constructor; intros d [= <-]; reflexivity.
Defined.

End engineered.

(** * Further properties of the summaries *)

Section summaries.

Local Open Scope Q_scope.

Lemma missing_count_cons {A : Type} (v : option A) (col : list (option A)) :
  missing_count (v :: col) = (Z.b2z (isna v) + missing_count col)%Z.
Proof. done. Qed.

Lemma missing_count_range {A : Type} (col : list (option A)) :
  (0 <= missing_count col <= Z.of_nat (length col))%Z.
Proof.
  induction col as [| v col IH]; [done |].
  rewrite missing_count_cons. simpl length. destruct v; simpl; lia.
Qed.

Lemma missing_count_dropna (col : list float) :
  (Z.of_nat (length (dropna col)) + missing_count col
   = Z.of_nat (length col))%Z.
Proof.
  unfold dropna. induction col as [| [x |] col IH]; [done | |];
    rewrite missing_count_cons.
  - change (omap id (Some x :: col)) with (x :: omap id col).
    simpl length. simpl Z.b2z. lia.
  - change (omap id (None :: col)) with (omap id col).
    simpl length. simpl Z.b2z. lia.
Qed.

(** The two tables agree: for every numeric column, the count of the
    numeric summary plus the missing count of the missingness summary is
    the number of rows. *)
Theorem count_plus_missing (c : string) (col : list float) :
  (Row.count (fence_row c col) + missing_count col
   = Z.of_nat (length col))%Z.
Proof.
  rewrite <- (missing_count_dropna col). f_equal.
  unfold fence_row.
  destruct (dropna col) as [| x s] eqn:Hs; [done |].
  by destruct (quantile_nonempty (x :: s) (25 # 100) ltac:(done)) as [? ->].
Qed.

(** The missing count is between 0 and the number of rows; the missing
    percentage of a table with rows is between 0 and 100, and for a table
    without rows it is [NaN] (0 divided by 0). *)
Theorem missing_pct_range {A : Type} (col : list (option A)) :
  (0 <= missing_count col <= Z.of_nat (length col))%Z /\
  (col <> [] -> exists pct, missing_pct col = Some pct /\ 0 <= pct <= 100) /\
  (col = [] -> missing_pct col = NaN).
Proof.
  pose proof (missing_count_range col) as Hrange.
  split; [done |]. split; [| by intros ->].
  intros Hcol.
  assert (0 < length col)%nat as Hlen by (destruct col; [done | simpl; lia]).
  destruct (round2_percent (Z.to_nat (missing_count col)) (length col)
              ltac:(lia) Hlen) as (pct & Hpct & Hbounds).
  exists pct. split; [| done].
  rewrite Z2Nat.id in Hpct by lia. rewrite <- Hpct.
  unfold missing_pct, fdiv.
  assert (Qeq_bool (inject_Z (Z.of_nat (length col))) 0 = false) as ->;
    [| done].
  apply not_true_is_false. intros Heq%Qeq_bool_eq.
  unfold Qeq in Heq. simpl in *. lia.
Qed.

(** The engineered flags in the missingness summary: [is_holiday] is
    missing exactly as often as the date column, [is_weekend] (a boolean
    column) never. *)
Theorem engineered_missing_count (col : date_column) :
  Forall (fun c => forall d, c = Some d -> valid d) col ->
  exists hvals,
    is_holiday_vals col = Return hvals /\
    missing_count hvals = missing_count col /\
    missing_count (Some <$> is_weekend col) = 0%Z.
Proof.
  intros Hcol.
  destruct (holiday_calendar_returns col Hcol) as [cal Hcal].
  exists (is_holiday_val cal <$> col). unfold is_holiday_vals.
  rewrite Hcal, bind_Return. split; [done |]. split.
  - clear. induction col as [| [d |] col IH]; [done | |];
      rewrite fmap_cons, !missing_count_cons, IH; [| done].
    simpl. by destruct (cal !! year d).
  - generalize (is_weekend col). clear.
    induction l as [| b l IH]; [done |].
    by rewrite fmap_cons, missing_count_cons, IH.
Qed.

Lemma engineered_missing_count_witness :
  exists hvals,
    is_holiday_vals [Some (Date.mk 2024 1 15); None] = Return hvals /\
    missing_count hvals = missing_count [Some (Date.mk 2024 1 15); None] /\
    missing_count (Some <$> is_weekend [Some (Date.mk 2024 1 15); None])
    = 0%Z.
Proof.
  apply engineered_missing_count.
  repeat constructor; intros d [= <-]; reflexivity.
Defined.

(** *** Quartiles inside the range of the data *)









Lemma filter_none {A : Type} (P : A -> Prop) `{!forall x, Decision (P x)}
    (l : list A) :
  Forall (fun x => ~ P x) l -> filter P l = [].
Proof.
  induction 1 as [| x l Hx _ IH]; [done |].
  by rewrite filter_cons_False.
Qed.



(** *** Independence of the row order *)

Lemma length_filter_mono {A : Type} (P R : A -> Prop)
    `{!forall x, Decision (P x), !forall x, Decision (R x)} (l : list A) :
  (forall x, P x -> R x) ->
  (length (filter P l) <= length (filter R l))%nat.
Proof.
  intros HPR. induction l as [| x l IH]; [done |].
  rewrite !filter_cons.
  destruct (decide (P x)) as [HP | HP]; destruct (decide (R x)) as [HR | HR];
    simpl; try lia.
  by destruct HR; apply HPR.
Qed.

(** The value at rank [i] of sorted values, by counting: at most [i]
    values are below it and more than [i] are not above it. *)
Lemma nth_sorted_rank (xs : list Q) (d : Q) (i : nat) :
  StronglySorted Qle xs -> (i < length xs)%nat ->
  (length (filter (fun x => (x < nth i xs d)%Q) xs) <= i)%nat /\
  (i < length (filter (fun x => (x <= nth i xs d)%Q) xs))%nat.
Proof.
  intros Hxs. revert i.
  induction Hxs as [| x xs Hsorted IH Hx]; intros i Hi; simpl in Hi; [lia |].
  destruct i as [| i]; simpl nth.
  - rewrite filter_cons_False by lra.
    rewrite filter_cons_True by lra. simpl. split; [| lia].
    rewrite filter_none; [done |].
    eapply Forall_impl; [exact Hx |]. simpl. intros y Hy. lra.
  - destruct (IH i ltac:(lia)) as [Hlt Hle].
    assert (x <= nth i xs d) as Hxv.
    { apply (proj1 (List.Forall_nth _ _) Hx). lia. }
    rewrite (filter_cons_True (fun y => y <= nth i xs d)) by done.
    simpl. split; [| lia].
    rewrite filter_cons. destruct (decide (x < nth i xs d)); simpl; lia.
Qed.

(** Two values of the same rank in two arrangements of the same values
    are equal. *)
Lemma rank_unique (l l' : list Q) (v v' : Q) (i : nat) :
  l ≡ₚ l' ->
  (length (filter (fun x => (x < v)%Q) l) <= i)%nat ->
  (i < length (filter (fun x => (x <= v)%Q) l))%nat ->
  (length (filter (fun x => (x < v')%Q) l') <= i)%nat ->
  (i < length (filter (fun x => (x <= v')%Q) l'))%nat ->
  v == v'.
Proof.
  intros Hperm Ha Hb Ha' Hb'.
  destruct (Qlt_le_dec v v') as [Hlt | Hge].
  - pose proof (length_filter_mono (fun x => x <= v) (fun x => x < v') l
                  ltac:(intros x Hx; simpl in *; lra)) as Hmono.
    assert (length (filter (fun x => x < v') l)
            = length (filter (fun x => x < v') l')) as Heq
        by (by rewrite Hperm).
    lia.
  - destruct (Qlt_le_dec v' v) as [Hlt | Hle]; [| lra].
    pose proof (length_filter_mono (fun x => x <= v') (fun x => x < v) l'
                  ltac:(intros x Hx; simpl in *; lra)) as Hmono.
    assert (length (filter (fun x => x < v) l)
            = length (filter (fun x => x < v) l')) as Heq
        by (by rewrite Hperm).
    lia.
Qed.

Lemma nth_sort_values_perm (s s' : list Q) (d d' : Q) (i : nat) :
  s ≡ₚ s' -> (i < length s)%nat ->
  nth i (sort_values s) d == nth i (sort_values s') d'.
Proof.
  intros Hperm Hi.
  assert (sort_values s ≡ₚ sort_values s') as Hsorted.
  { unfold sort_values. by rewrite !merge_sort_Permutation. }
  destruct (nth_sorted_rank (sort_values s) d i (sort_values_sorted s))
    as [Ha Hb]; [by rewrite length_sort_values |].
  destruct (nth_sorted_rank (sort_values s') d' i (sort_values_sorted s'))
    as [Ha' Hb']; [by rewrite length_sort_values, <- Hperm |].
  by apply (rank_unique _ _ _ _ i Hsorted).
Qed.

Lemma interpolate_perm (s s' : list Q) (d d' h : Q) :
  s ≡ₚ s' -> s <> [] ->
  0 <= h <= inject_Z (Z.of_nat (length s) - 1) ->
  interpolate (sort_values s) d h == interpolate (sort_values s') d' h.
Proof.
  intros Hperm Hs [Hh0 Hhn].
  assert (0 < length s)%nat as Hlen by (destruct s; [done | simpl; lia]).
  assert (0 <= Qfloor h <= Z.of_nat (length s) - 1)%Z as Hfl.
  { split.
    - exact (Qfloor_resp_le 0 h Hh0).
    - apply Qfloor_resp_le in Hhn. by rewrite Qfloor_Z in Hhn. }
  assert (length s' = length s) as Hlen' by (by rewrite Hperm).
  unfold interpolate.
  rewrite !length_sort_values, Hlen'.
  rewrite (nth_sort_values_perm s s' d d' (Z.to_nat (Qfloor h)) Hperm)
    by lia.
  rewrite (nth_sort_values_perm s s' d d'
             (Z.to_nat (Z.min (Qfloor h + 1) (Z.of_nat (length s) - 1)))
             Hperm) by lia.
  reflexivity.
Qed.

Lemma quantile_perm (s s' : list Q) (q : Q) :
  s ≡ₚ s' -> s <> [] -> 0 <= q <= 1 ->
  exists v v', quantile s q = Some v /\ quantile s' q = Some v' /\ v == v'.
Proof.
  intros Hperm Hs Hq.
  assert (s' <> []) as Hs'
      by (intros ->; by apply Permutation_nil_r in Hperm).
  destruct (sort_values_cons s Hs) as (x0 & xs & Hsort).
  destruct (sort_values_cons s' Hs') as (x0' & xs' & Hsort').
  unfold quantile. rewrite Hsort, Hsort'.
  eexists _, _. split; [done |]. split; [done |].
  assert (length s' = length s) as Hlen' by (by rewrite Hperm).
  rewrite <- Hsort, <- Hsort', !length_sort_values, Hlen'.
  apply interpolate_perm; [done | done |].
  assert (0 <= inject_Z (Z.of_nat (length s) - 1)) as Hn1.
  { change 0 with (inject_Z 0). rewrite <- Zle_Qle.
    destruct s; [done | simpl length; lia]. }
  nra.
Qed.

Lemma series_median_perm (s s' : list Q) :
  s ≡ₚ s' -> s <> [] ->
  exists v v',
    series_median s = Some v /\ series_median s' = Some v' /\ v == v'.
Proof.
  intros Hperm Hs.
  assert (s' <> []) as Hs'
      by (intros ->; by apply Permutation_nil_r in Hperm).
  destruct (sort_values_cons s Hs) as (x0 & xs & Hsort).
  destruct (sort_values_cons s' Hs') as (x0' & xs' & Hsort').
  destruct (series_median_interpolate s x0 xs Hsort) as (v & Hv & Heq).
  destruct (series_median_interpolate s' x0' xs' Hsort')
    as (v' & Hv' & Heq').
  exists v, v'. split; [done |]. split; [done |].
  assert (length s' = length s) as Hlen' by (by rewrite Hperm).
  rewrite Heq, Heq', <- Hsort, <- Hsort', !length_sort_values, Hlen'.
  apply interpolate_perm; [done | done |].
  assert (0 <= inject_Z (Z.of_nat (length s) - 1)) as Hn1.
  { change 0 with (inject_Z 0). rewrite <- Zle_Qle.
    destruct s; [done | simpl length; lia]. }
  nra.
Qed.

Lemma outlier_rows_perm (col col' : list float) (lo up lo' up' : Q) :
  col ≡ₚ col' -> lo == lo' -> up == up' ->
  length (outlier_rows lo up col) = length (outlier_rows lo' up' col').
Proof.
  intros Hperm Hlo Hup. unfold outlier_rows.
  transitivity (length (filter (outside lo' up') col)).
  - f_equal. apply list_filter_iff.
    intros [x |]; simpl; [| done]. by rewrite Hlo, Hup.
  - by rewrite Hperm.
Qed.

(** The record of a column does not depend on the order of its rows: two
    arrangements of the same cells give the same count and outlier
    percentage and equal quartiles, median, interquartile range and
    fences. *)
Theorem fence_row_row_order (c : string) (col col' : list float) :
  col ≡ₚ col' -> dropna col <> [] ->
  exists q1 med q3 iqr lower upper q1' med' q3' iqr' lower' upper' : Q,
    Row.q1 (fence_row c col) = Some q1 /\
    Row.q1 (fence_row c col') = Some q1' /\ q1 == q1' /\
    Row.median (fence_row c col) = Some med /\
    Row.median (fence_row c col') = Some med' /\ med == med' /\
    Row.q3 (fence_row c col) = Some q3 /\
    Row.q3 (fence_row c col') = Some q3' /\ q3 == q3' /\
    Row.iqr (fence_row c col) = Some iqr /\
    Row.iqr (fence_row c col') = Some iqr' /\ iqr == iqr' /\
    Row.lower_fence (fence_row c col) = Some lower /\
    Row.lower_fence (fence_row c col') = Some lower' /\ lower == lower' /\
    Row.upper_fence (fence_row c col) = Some upper /\
    Row.upper_fence (fence_row c col') = Some upper' /\ upper == upper' /\
    Row.count (fence_row c col) = Row.count (fence_row c col') /\
    Row.outlier_pct (fence_row c col) = Row.outlier_pct (fence_row c col').
Proof.
  intros Hperm Hs.
  assert (dropna col ≡ₚ dropna col') as Hdrop
      by (unfold dropna; by rewrite Hperm).
  assert (dropna col' <> []) as Hs'
      by (intros Hnil; rewrite Hnil in Hdrop;
          by apply Permutation_nil_r in Hdrop).
  destruct (fence_row_nonempty c col Hs) as (q1 & q3 & Hq1 & Hq3 & ->).
  destruct (fence_row_nonempty c col' Hs') as (q1' & q3' & Hq1' & Hq3' & ->).
  destruct (quantile_perm _ _ (25 # 100) Hdrop Hs ltac:(lra))
    as (v1 & v1' & Hv1 & Hv1' & Heq1).
  destruct (quantile_perm _ _ (75 # 100) Hdrop Hs ltac:(lra))
    as (v3 & v3' & Hv3 & Hv3' & Heq3).
  assert (v1 = q1) as -> by congruence.
  assert (v1' = q1') as -> by congruence.
  assert (v3 = q3) as -> by congruence.
  assert (v3' = q3') as -> by congruence.
  destruct (series_median_perm _ _ Hdrop Hs)
    as (med & med' & Hmed & Hmed' & Heqm).
  assert (q1 - (15 # 10) * (q3 - q1) == q1' - (15 # 10) * (q3' - q1'))
    as Hlower by lra.
  assert (q3 + (15 # 10) * (q3 - q1) == q3' + (15 # 10) * (q3' - q1'))
    as Hupper by lra.
  pose proof (outlier_rows_perm col col' _ _ _ _ Hperm Hlower Hupper)
    as Hrows.
  assert (length col' = length col) as Hlen by (by rewrite Hperm).
  assert (length (dropna col') = length (dropna col)) as Hlen'
      by (by rewrite Hdrop).
  eexists q1, med, q3, _, _, _, q1', med', q3', _, _, _. simpl.
  rewrite Hrows, Hlen, Hlen'.
  repeat split; try done; lra.
Qed.

Lemma fence_row_row_order_witness :
  exists q1 med q3 iqr lower upper q1' med' q3' iqr' lower' upper' : Q,
    Row.q1 (fence_row "x" [Some 3; None; Some 1]) = Some q1 /\
    Row.q1 (fence_row "x" [None; Some 1; Some 3]) = Some q1' /\
    q1 == q1' /\
    Row.median (fence_row "x" [Some 3; None; Some 1]) = Some med /\
    Row.median (fence_row "x" [None; Some 1; Some 3]) = Some med' /\
    med == med' /\
    Row.q3 (fence_row "x" [Some 3; None; Some 1]) = Some q3 /\
    Row.q3 (fence_row "x" [None; Some 1; Some 3]) = Some q3' /\
    q3 == q3' /\
    Row.iqr (fence_row "x" [Some 3; None; Some 1]) = Some iqr /\
    Row.iqr (fence_row "x" [None; Some 1; Some 3]) = Some iqr' /\
    iqr == iqr' /\
    Row.lower_fence (fence_row "x" [Some 3; None; Some 1]) = Some lower /\
    Row.lower_fence (fence_row "x" [None; Some 1; Some 3]) = Some lower' /\
    lower == lower' /\
    Row.upper_fence (fence_row "x" [Some 3; None; Some 1]) = Some upper /\
    Row.upper_fence (fence_row "x" [None; Some 1; Some 3]) = Some upper' /\
    upper == upper' /\
    Row.count (fence_row "x" [Some 3; None; Some 1])
    = Row.count (fence_row "x" [None; Some 1; Some 3]) /\
    Row.outlier_pct (fence_row "x" [Some 3; None; Some 1])
    = Row.outlier_pct (fence_row "x" [None; Some 1; Some 3]).
Proof.
  apply fence_row_row_order; [| discriminate].
  etransitivity; [apply Permutation_swap |].
  apply Permutation_skip, Permutation_swap.
Defined.

End summaries.

(** * Properties of the column handling *)

Section columns.

Local Open Scope nat_scope.

Lemma is_space_lower_char (a : Ascii.ascii) :
  is_space (lower_char a) = is_space a.
Proof. by destruct a as [[] [] [] [] [] [] [] []]. Qed.

Lemma is_space_replace_space_char (a : Ascii.ascii) :
  is_space a = false -> is_space (replace_space_char a) = false.
Proof. by destruct a as [[] [] [] [] [] [] [] []]. Qed.

Lemma normalize_char_fixed (a : Ascii.ascii) :
  let b := replace_space_char (lower_char a) in
  lower_char b = b /\ replace_space_char b = b /\ b <> space.
Proof. by destruct a as [[] [] [] [] [] [] [] []]. Qed.

Lemma map_chars_map_chars (f g : Ascii.ascii -> Ascii.ascii) (s : string) :
  map_chars f (map_chars g s) = map_chars (fun a => f (g a)) s.
Proof. induction s as [| a s IH]; [done |]. simpl. by rewrite IH. Qed.

Lemma map_chars_fixed (f g : Ascii.ascii -> Ascii.ascii) (s : string) :
  (forall a, f (g a) = g a) -> map_chars f (map_chars g s) = map_chars g s.
Proof.
  intros Hfg. induction s as [| a s IH]; [done |]. simpl.
  by rewrite IH, Hfg.
Qed.

Lemma lstrip_shape (s : string) :
  lstrip s = String.EmptyString \/
  exists a r, lstrip s = String.String a r /\ is_space a = false.
Proof.
  induction s as [| a s IH]; [by left |]. simpl.
  destruct (is_space a) eqn:Ha; [done |]. right. by exists a, s.
Qed.

Lemma rstrip_rstrip (s : string) : rstrip (rstrip s) = rstrip s.
Proof.
  induction s as [| a s IH]; [done |]. simpl.
  destruct (rstrip s) as [| b r] eqn:Hr.
  - destruct (is_space a) eqn:Ha; [done |]. simpl. by rewrite Ha.
  - change (rstrip (String.String a (String.String b r)))
      with (match rstrip (String.String b r) with
            | String.EmptyString =>
                if is_space a then String.EmptyString
                else String.String a String.EmptyString
            | r' => String.String a r'
            end).
    by rewrite IH.
Qed.

Lemma lstrip_rstrip_fixed (t : string) :
  lstrip t = t -> lstrip (rstrip t) = rstrip t.
Proof.
  destruct t as [| a t]; [done |]. simpl.
  destruct (is_space a) eqn:Ha.
  - intros Heq. exfalso.
    assert (forall s, String.length (lstrip s) <= String.length s) as Hlen.
    { induction s as [| b s IH]; simpl; [done |].
      destruct (is_space b); simpl; lia. }
    pose proof (Hlen t) as Hle. rewrite Heq in Hle. simpl in Hle. lia.
  - intros _. destruct (rstrip t); simpl; by rewrite Ha.
Qed.

Lemma lstrip_map_chars (f : Ascii.ascii -> Ascii.ascii) (t : string) :
  (forall a, is_space a = false -> is_space (f a) = false) ->
  lstrip t = t -> lstrip (map_chars f t) = map_chars f t.
Proof.
  intros Hf Ht. destruct (lstrip_shape t) as [Hemp | (a & r & Hshape & Ha)];
    rewrite Ht in *; subst t; [done |].
  simpl. by rewrite (Hf a Ha).
Qed.

Lemma rstrip_map_chars (f : Ascii.ascii -> Ascii.ascii) (t : string) :
  (forall a, is_space a = false -> is_space (f a) = false) ->
  rstrip t = t -> rstrip (map_chars f t) = map_chars f t.
Proof.
  intros Hf. induction t as [| a t IH]; [done |]. simpl.
  destruct (rstrip t) as [| b r] eqn:Hr.
  - destruct (is_space a) eqn:Ha; [done |].
    intros [= <-]. simpl. by rewrite (Hf a Ha).
  - intros [= <-]. rewrite IH by done. done.
Qed.

Lemma strip_fixed_map_chars (f : Ascii.ascii -> Ascii.ascii) (c : string) :
  (forall a, is_space a = false -> is_space (f a) = false) ->
  strip (map_chars f (strip c)) = map_chars f (strip c).
Proof.
  intros Hf.
  assert (lstrip (strip c) = strip c) as Hl.
  { unfold strip. apply lstrip_rstrip_fixed.
    destruct (lstrip_shape c) as [-> | (a & r & -> & Ha)]; [done |].
    simpl. by rewrite Ha. }
  assert (rstrip (strip c) = strip c) as Hr by apply rstrip_rstrip.
  unfold strip at 1.
  rewrite (lstrip_map_chars f _ Hf Hl). by apply rstrip_map_chars.
Qed.

(** A normalised header name contains no space and no upper-case letter,
    has no white space at either end, and normalising it again changes
    nothing. *)
Theorem normalize_name_spec (c : string) :
  ascii_name c = true ->
  normalize_name (normalize_name c) = normalize_name c /\
  strip (normalize_name c) = normalize_name c /\
  lower (normalize_name c) = normalize_name c /\
  Forall (fun a => a <> space)
         (String.list_ascii_of_string (normalize_name c)).
Proof.
  intros _.
  assert (normalize_name c
          = map_chars (fun a => replace_space_char (lower_char a)) (strip c))
    as Hnorm by apply map_chars_map_chars.
  assert (strip (normalize_name c) = normalize_name c) as Hstrip.
  { rewrite Hnorm. apply strip_fixed_map_chars. intros a Ha.
    apply is_space_replace_space_char. by rewrite is_space_lower_char. }
  assert (lower (normalize_name c) = normalize_name c) as Hlower.
  { rewrite Hnorm. apply map_chars_fixed. intros a.
    apply normalize_char_fixed. }
  assert (replace_spaces (normalize_name c) = normalize_name c) as Hrepl.
  { rewrite Hnorm. apply map_chars_fixed. intros a.
    apply normalize_char_fixed. }
  split; [| split; [done | split; [done |]]].
  - unfold normalize_name at 1. by rewrite Hstrip, Hlower, Hrepl.
  - rewrite Hnorm. generalize (strip c). intros t.
    induction t as [| a t IH]; simpl; constructor; [| done].
    apply normalize_char_fixed.
Qed.

Lemma normalize_name_spec_witness :
  normalize_name (normalize_name "  Visit Date ")
  = normalize_name "  Visit Date " /\
  strip (normalize_name "  Visit Date ") = normalize_name "  Visit Date " /\
  lower (normalize_name "  Visit Date ") = normalize_name "  Visit Date " /\
  Forall (fun a => a <> space)
         (String.list_ascii_of_string (normalize_name "  Visit Date ")).
Proof.
  apply normalize_name_spec. reflexivity.
Defined.

(** *** The date column *)

Lemma prefix_append (sub s : string) :
  String.prefix sub s = true <-> exists post, s = String.append sub post.
Proof.
  revert s. induction sub as [| a sub IH]; intros [| b s]; simpl.
  - split; [intros _; by exists String.EmptyString | done].
  - split; [intros _; by exists (String.String b s) | done].
  - split; [done | by intros [post [=]]].
  - destruct (Ascii.ascii_dec a b) as [-> | Hne].
    + rewrite IH. split; intros [post Hpost]; exists post;
        [by rewrite Hpost | by injection Hpost].
    + split; [done | intros [post [= Hab _]]; congruence].
Qed.

(** [contains] is the substring test: [sub] occurs in [s] when [s] is
    some text, then [sub], then some text. *)
Lemma contains_spec (sub s : string) :
  contains sub s = true <->
  exists pre post, s = String.append pre (String.append sub post).
Proof.
  induction s as [| a s IH].
  - change (contains sub String.EmptyString)
      with (String.prefix sub String.EmptyString || false).
    rewrite orb_false_r, prefix_append. split.
    + intros [post ->]. by exists String.EmptyString, post.
    + intros ([| b pre] & post & Heq); [by exists post | done].
  - change (contains sub (String.String a s))
      with (String.prefix sub (String.String a s) || contains sub s).
    rewrite orb_true_iff, prefix_append, IH. split.
    + intros [[post ->] | (pre & post & ->)].
      * by exists String.EmptyString, post.
      * by exists (String.String a pre), post.
    + intros ([| b pre] & post & Heq).
      * left. by exists post.
      * right. injection Heq as -> ->. by exists pre, post.
Qed.

Lemma find_date_col_Some (columns : list string) (c : string) :
  find_date_col columns = Some c ->
  exists i,
    columns !! i = Some c /\ contains "date" c = true /\
    forall j c', j < i -> columns !! j = Some c' ->
                 contains "date" c' = false.
Proof.
  induction columns as [| c0 columns IH]; [done |]. simpl.
  destruct (contains "date" c0) eqn:Hc0.
  - intros [= <-]. exists 0. split; [done |]. split; [done |]. lia.
  - intros Hfind. destruct (IH Hfind) as (i & Hi & Hc & Hbefore).
    exists (S i). split; [done |]. split; [done |].
    intros [| j] c' Hj Hc'; [by injection Hc' as <- |].
    apply (Hbefore j); [lia | done].
Qed.

Lemma find_date_col_None (columns : list string) :
  find_date_col columns = None ->
  Forall (fun c => contains "date" c = false) columns.
Proof.
  induction columns as [| c0 columns IH]; [by constructor |]. simpl.
  destruct (contains "date" c0) eqn:Hc0; [done |].
  intros Hfind. constructor; [done | by apply IH].
Qed.

(** The date column is always one of the columns: the first whose name
    contains "date", none before it does; when no name contains "date" it
    is the first column.  Only a table without columns has none (the
    lookup [df.columns[0]] fails). *)
Theorem date_col_spec (columns : list string) :
  (columns = [] -> date_col columns = None) /\
  (columns <> [] ->
   exists c i,
     date_col columns = Some c /\
     columns !! i = Some c /\
     (forall j c', j < i -> columns !! j = Some c' ->
                   contains "date" c' = false) /\
     (contains "date" c = true \/
      i = 0 /\ Forall (fun c' => contains "date" c' = false) columns)).
Proof.
  split; [by intros -> |]. intros Hcols. unfold date_col.
  destruct (find_date_col columns) as [c |] eqn:Hfind.
  - destruct (find_date_col_Some _ _ Hfind) as (i & Hi & Hc & Hbefore).
    exists c, i. auto.
  - destruct columns as [| c0 columns]; [done |].
    exists c0, 0. split; [done |]. split; [done |].
    split; [lia |]. right. split; [done |]. by apply find_date_col_None.
Qed.

(** *** Numeric and character columns *)

Lemma split_columns_fold (numeric : string -> bool)
    (columns char_cols num_cols : list string) :
  foldl (fun '(char_cols, num_cols) c =>
           if numeric c then (char_cols, num_cols ++ [c])
           else (char_cols ++ [c], num_cols))
        (char_cols, num_cols) columns
  = (char_cols ++ filter (fun c => numeric c = false) columns,
     num_cols ++ filter (fun c => numeric c = true) columns).
Proof.
  revert char_cols num_cols.
  induction columns as [| c columns IH]; intros char_cols num_cols; simpl.
  - by rewrite !app_nil_r.
  - rewrite !filter_cons. destruct (numeric c) eqn:Hc; rewrite IH.
    + rewrite decide_False, decide_True by done. by rewrite <- app_assoc.
    + rewrite decide_True, decide_False by done. by rewrite <- app_assoc.
Qed.

(** The type loop is a stable partition: [num_cols] are the numeric
    columns and [char_cols] the others, each in the order of the table, so
    every column is in exactly one of the two lists. *)
Theorem split_columns_spec (numeric : string -> bool)
    (columns : list string) :
  split_columns numeric columns
  = (filter (fun c => numeric c = false) columns,
     filter (fun c => numeric c = true) columns) /\
  columns ≡ₚ (split_columns numeric columns).1
             ++ (split_columns numeric columns).2 /\
  forall c, c ∈ columns ->
            (c ∈ (split_columns numeric columns).2 <-> numeric c = true) /\
            (c ∈ (split_columns numeric columns).1 <-> numeric c = false).
Proof.
  unfold split_columns. rewrite split_columns_fold. simpl.
  split; [done |]. split.
  - induction columns as [| c columns IH]; [done |].
    rewrite !filter_cons. destruct (numeric c) eqn:Hc.
    + rewrite decide_False, decide_True by done.
      rewrite <- Permutation_middle. by constructor.
    + rewrite decide_True, decide_False by done. simpl. by constructor.
  - intros c Hc. rewrite !list_elem_of_filter. tauto.
Qed.

(** *** The columns that get a frequency table *)

Lemma dedup_fold (l acc : list string) :
  NoDup acc ->
  NoDup (foldl (fun full c =>
                  if bool_decide (c ∈ full) then full else full ++ [c])
               acc l) /\
  forall x,
    x ∈ foldl (fun full c =>
                 if bool_decide (c ∈ full) then full else full ++ [c])
              acc l <->
    x ∈ acc \/ x ∈ l.
Proof.
  revert acc. induction l as [| c l IH]; intros acc Hacc; simpl.
  - split; [done |]. intros x. rewrite elem_of_nil. tauto.
  - case_bool_decide as Hin.
    + destruct (IH acc Hacc) as [Hnd Hmem]. split; [done |].
      intros x. rewrite Hmem, elem_of_cons. split; [tauto |].
      intros [Hx | [-> | Hx]]; tauto.
    + assert (NoDup (acc ++ [c])) as Hacc'.
      { apply NoDup_app. split; [done |]. split; [| apply NoDup_singleton].
        intros y Hy Hy'. by apply list_elem_of_singleton in Hy' as ->. }
      destruct (IH _ Hacc') as [Hnd Hmem]. split; [done |].
      intros x.
      rewrite Hmem, elem_of_app, list_elem_of_singleton, elem_of_cons.
      tauto.
Qed.

Lemma guarded_fold (df_columns l acc : list string) :
  NoDup acc ->
  NoDup (foldl (fun full c =>
                  if negb (bool_decide (c ∈ full))
                     && bool_decide (c ∈ df_columns)
                  then full ++ [c] else full)
               acc l) /\
  forall x,
    x ∈ foldl (fun full c =>
                 if negb (bool_decide (c ∈ full))
                    && bool_decide (c ∈ df_columns)
                 then full ++ [c] else full)
              acc l <->
    x ∈ acc \/ (x ∈ l /\ x ∈ df_columns).
Proof.
  revert acc. induction l as [| c l IH]; intros acc Hacc; simpl.
  - split; [done |]. intros x. rewrite elem_of_nil. tauto.
  - destruct (decide (c ∈ acc)) as [Hin | Hin];
      [rewrite (bool_decide_eq_true_2 _ Hin)
      | rewrite (bool_decide_eq_false_2 _ Hin)]; simpl.
    + destruct (IH acc Hacc) as [Hnd Hmem]. split; [done |].
      intros x. rewrite Hmem, elem_of_cons. split; [tauto |].
      intros [Hx | [[-> | Hx] Hdf]]; tauto.
    + case_bool_decide as Hdf.
      * assert (NoDup (acc ++ [c])) as Hacc'.
        { apply NoDup_app. split; [done |].
          split; [| apply NoDup_singleton].
          intros y Hy Hy'. by apply list_elem_of_singleton in Hy' as ->. }
        destruct (IH _ Hacc') as [Hnd Hmem]. split; [done |].
        intros x.
        rewrite Hmem, elem_of_app, list_elem_of_singleton, elem_of_cons.
        split.
        -- intros [[Hx | ->] | [Hx Hx']]; tauto.
        -- intros [Hx | [[-> | Hx] Hx']]; tauto.
      * destruct (IH acc Hacc) as [Hnd Hmem]. split; [done |].
        intros x. rewrite Hmem, elem_of_cons. split; [tauto |].
        intros [Hx | [[-> | Hx] Hx']]; tauto.
Qed.

(** [char_cols_full] lists every character column and every engineered
    column of the table exactly once, whatever repetitions [char_cols]
    has and whether or not an engineered name was already a character
    column. *)
Theorem char_cols_full_spec (char_cols df_columns : list string) :
  NoDup (char_cols_full char_cols df_columns) /\
  forall c,
    c ∈ char_cols_full char_cols df_columns <->
    c ∈ char_cols \/
    (c ∈ ["day_of_week"; "is_holiday"; "is_weekend"]%string /\
     c ∈ df_columns).
Proof.
  unfold char_cols_full.
  destruct (dedup_fold char_cols [] (NoDup_nil_2 (A:=string)))
    as [Hnd Hmem].
  destruct (guarded_fold df_columns
              ["day_of_week"; "is_holiday"; "is_weekend"]%string _ Hnd)
    as [Hnd' Hmem'].
  split; [done |]. intros c. rewrite Hmem', Hmem, elem_of_nil. tauto.
Qed.

End columns.
